(** * Penzer: the Memory layer (src/Agent/memory.py)

    A shallow embedding of class [Memory]: the SQLite task queue and the
    embedding store with its two backends (a FAISS index reached through an
    integer-id mapping, and the numpy brute-force matrix), together with the
    files of the index directory the class reads and writes.

    Python methods are functions in a state-and-exception monad over a
    [World]: the attributes of the object, the index directory and the task
    table.  An exception keeps every mutation made before it was raised, as
    in Python.

    Modules [Agent], [Ctx] and [Prompts] embed what the orchestrator puts
    around the store: its risk heuristic (src/Agent/main.py), the run
    context (src/Agent/context.py) and the prompt loader
    (src/Agent/prompts.py). *)

From Stdlib Require Import String Ascii ZArith List Bool Lia.
Import ListNotations.
Local Open Scope string_scope.
Local Open Scope Z_scope.

(** ** Python values *)

(** The exception classes raised on the modelled paths; each is a subclass
    of [Exception], so [except Exception] catches all of them. *)
Inductive exn : Type :=
| RuntimeError
| ValueError
| OSError
| AttributeError
| TypeError
| IndexError
| AssertionError
| OverflowError.

Set Warnings "-register-all".

(** What [json.load] yields and [json.dump] accepts.  A JSON object is a
    Python dict: an association list in insertion order, read by its first
    binding of a key. *)
Inductive json : Type :=
| JNull
| JBool (b : bool)
| JNum (n : Z)
| JStr (s : string)
| JArr (items : list json)
| JObj (fields : list (string * json)).

(** The literal [{}]. *)
Definition empty_dict : json := JObj [].

Module Dict.
Section Dict.
Context {K V : Type} (eqb : K -> K -> bool).

(** [d.get(k)] *)
Fixpoint get (d : list (K * V)) (k : K) : option V :=
  match d with
  | [] => None
  | (k', v) :: rest => if eqb k' k then Some v else get rest k
  end.

(** [d[k] = v]: an existing key keeps its position, a new key goes last. *)
Fixpoint set (d : list (K * V)) (k : K) (v : V) : list (K * V) :=
  match d with
  | [] => [(k, v)]
  | (k', v') :: rest =>
      if eqb k' k then (k', v) :: rest else (k', v') :: set rest k v
  end.

(** [d.pop(k, None)] *)
Fixpoint pop (d : list (K * V)) (k : K) : list (K * V) :=
  match d with
  | [] => []
  | (k', v') :: rest => if eqb k' k then rest else (k', v') :: pop rest k
  end.

(** [{k: v for k, v in items}]: later bindings of a key overwrite. *)
Definition of_items (items : list (K * V)) : list (K * V) :=
  fold_left (fun d kv => set d (fst kv) (snd kv)) items [].

(** [list(d.values())] *)
Definition values (d : list (K * V)) : list V := map snd d.
End Dict.
End Dict.

(** [payload.get(key, default)] on a loaded JSON document: only a dict has
    [.get]; on any other value the attribute lookup raises. *)
Definition json_get (payload : json) (key : string) (default : json)
  : option json :=
  match payload with
  | JObj fields =>
      Some (match Dict.get String.eqb fields key with
            | Some v => v
            | None => default
            end)
  | _ => None
  end.

(** [existing[key] = value] on a loaded JSON document: item assignment with
    a string key works on a dict only. *)
Definition json_setitem (existing : json) (key : string) (value : json)
  : option json :=
  match existing with
  | JObj fields => Some (JObj (Dict.set String.eqb fields key value))
  | _ => None
  end.

(** ** The task table

    [tasks(id TEXT PRIMARY KEY, command TEXT, status TEXT DEFAULT 'pending',
    result TEXT)], rows in rowid order. *)
Inductive status : Type := pending | done.

Record task : Type := {
  task_id : string;
  command : string;
  task_status : status;
  result : option string
}.

(** ** Files of the index directory *)

(** A file is missing, present but unreadable or unparseable (every load of
    it raises), or holds a document of the shape [_save_index] and
    [add_embedding] write. *)
Inductive file (A : Type) : Type :=
| Absent
| Garbage
| Holds (a : A).
Arguments Absent {A}.
Arguments Garbage {A}.
Arguments Holds {A} a.

(** [os.path.exists] *)
Definition exists_ {A} (f : file A) : bool :=
  match f with Absent => false | _ => true end.

(** How one write to the directory ends: it completes; it fails before the
    file is touched; or it fails after the file was truncated. *)
Inductive write_fate : Type := Completes | Refused | Torn.

(** The document [_save_index] keeps in meta.json:
    [{"id_map": {...}, "next_int_id": n}]; either key may be missing, the
    loader reads both with [.get] and a default. *)
Record meta_payload : Type := {
  id_map : option (list (Z * string));
  next_int_id_field : option Z
}.


(** How a call ends. *)
Inductive outcome (A : Type) : Type :=
| Returns (a : A)
| Raises (e : exn).
Arguments Returns {A} a.
Arguments Raises {A} e.

(** ** The world of one [Memory] object *)

Section Memory.

(** The float32 scalars held in vectors.  No reachable path of the modelled
    methods computes with a vector's entries, so they stay abstract;
    [np.asarray(..., dtype=np.float32)] is taken as already applied. *)
Context {F : Type}.

(** A 2-D [ndarray]: [shape = (length rows, ncols)]. *)
Record ndarray : Type := {
  ncols : Z;
  rows : list (list F)
}.

(** What the [vector] / [query_vector] argument can be: a flat list of
    floats, or a list of such lists. *)
Inductive array_like : Type :=
| Flat (v : list F)
| Nested (vs : list (list F)).

(** [np.asarray(x, dtype=np.float32)], followed by [reshape(1, -1)] when the
    array is 1-D: the resulting 2-D array, or the [ValueError] numpy raises
    on rows of unequal length. *)
Definition as_2d (x : array_like) : option ndarray :=
  match x with
  | Flat v => Some {| ncols := Z.of_nat (length v); rows := [v] |}
  | Nested [] => Some {| ncols := 0; rows := [[]] |}
  | Nested (v :: vs) =>
      if forallb (fun r => Nat.eqb (length r) (length v)) vs
      then Some {| ncols := Z.of_nat (length v); rows := v :: vs |}
      else None
  end.

(** [np.vstack([mat, vec])] *)
Definition vstack (mat vec : ndarray) : option ndarray :=
  if ncols mat =? ncols vec
  then Some {| ncols := ncols mat; rows := rows mat ++ rows vec |}
  else None.

(** Removes position [idx] from a list: [lst.pop(idx)], and the row removed
    by [np.delete(mat, idx, axis=0)]. *)
Fixpoint drop_at {A} (idx : nat) (l : list A) : list A :=
  match idx, l with
  | _, [] => []
  | O, _ :: rest => rest
  | S i, x :: rest => x :: drop_at i rest
  end.

(** [np.delete(mat, idx, axis=0)]; an index past the last row is an
    [IndexError]. *)
Definition np_delete (mat : ndarray) (idx : nat) : option ndarray :=
  if Nat.ltb idx (length (rows mat))
  then Some {| ncols := ncols mat; rows := drop_at idx (rows mat) |}
  else None.

(** [faiss.IndexIDMap(faiss.IndexFlatIP(d))]: the vectors in insertion
    order, each under its 64-bit integer id. *)
Record IndexIDMap : Type := {
  index_d : Z;
  entries : list (Z * list F)
}.

(** The attributes of a [Memory] object. *)
Record Memory : Type := {
  _conn : bool;                         (* [True]: a connection is open *)
  embedding_dim : Z;
  _use_faiss : bool;
  _faiss : bool;                        (* [True]: the module was imported *)
  _faiss_index : option IndexIDMap;
  _intid_to_str : list (Z * string);
  _next_int_id : Z;
  _emb_matrix : option ndarray;
  _emb_ids : list string
}.

(** The index directory. *)
Record Directory : Type := {
  creatable : bool;                     (* [os.makedirs] succeeds *)
  fates : list write_fate;              (* how the next writes end *)
  index_faiss : file IndexIDMap;
  meta_json : file meta_payload;
  embeddings_npy : file ndarray;
  emb_ids_json : file (list string);
  metadata_json : file json
}.

(** What the object runs with: whether [import numpy] succeeded, whether
    this FAISS build implements [remove_ids] on the index, and whether its
    [db_path] names a database file.  The database of [":memory:"] and of
    the empty path is private to its connection: it starts with no table
    and is gone when the connection is closed. *)
Record Runtime : Type := {
  _HAS_NUMPY : bool;
  has_remove_ids : bool;
  db_persistent : bool
}.

(** [tasks] are the rows of the database: those the open connection sees,
    and without a connection those of the database file (a database that
    is no file has none then). *)
Record World : Type := {
  runtime : Runtime;
  self : Memory;
  dir : Directory;
  tasks : list task
}.

(** ** The monad of methods *)

Definition M (A : Type) : Type := World -> outcome A * World.

Definition ret {A} (a : A) : M A := fun w => (Returns a, w).

Definition bind {A B} (c : M A) (k : A -> M B) : M B :=
  fun w =>
    match c w with
    | (Returns a, w') => k a w'
    | (Raises e, w') => (Raises e, w')
    end.

Definition raise {A} (e : exn) : M A := fun w => (Raises e, w).

(** [try: c  except Exception: h] *)
Definition try_except {A} (c : M A) (h : M A) : M A :=
  fun w =>
    match c w with
    | (Returns a, w') => (Returns a, w')
    | (Raises _, w') => h w'
    end.

Definition read {A} (f : World -> A) : M A := fun w => (Returns (f w), w).

Definition update (f : World -> World) : M unit := fun w => (Returns tt, f w).

(** Either the value or the exception: for library calls that fail. *)
Definition or_raise {A} (o : option A) (e : exn) : M A :=
  match o with
  | Some a => ret a
  | None => raise e
  end.

Definition when (b : bool) (c : M unit) : M unit := if b then c else ret tt.

Notation "x <- c ;; k" := (bind c (fun x => k))
  (at level 61, c at next level, right associativity).
Notation "c ;; k" := (bind c (fun _ => k))
  (at level 61, right associativity).

(** *** Attribute assignment *)

Definition with_self (f : Memory -> Memory) (w : World) : World :=
  {| runtime := runtime w; self := f (self w); dir := dir w;
     tasks := tasks w |}.

Definition with_dir (f : Directory -> Directory) (w : World) : World :=
  {| runtime := runtime w; self := self w; dir := f (dir w);
     tasks := tasks w |}.

Definition with_tasks (f : list task -> list task) (w : World) : World :=
  {| runtime := runtime w; self := self w; dir := dir w;
     tasks := f (tasks w) |}.

Definition set_conn (b : bool) (m : Memory) : Memory :=
  {| _conn := b; embedding_dim := embedding_dim m;
     _use_faiss := _use_faiss m; _faiss := _faiss m;
     _faiss_index := _faiss_index m; _intid_to_str := _intid_to_str m;
     _next_int_id := _next_int_id m; _emb_matrix := _emb_matrix m;
     _emb_ids := _emb_ids m |}.

Definition set_faiss (b : bool) (m : Memory) : Memory :=
  {| _conn := _conn m; embedding_dim := embedding_dim m;
     _use_faiss := b; _faiss := b;
     _faiss_index := _faiss_index m; _intid_to_str := _intid_to_str m;
     _next_int_id := _next_int_id m; _emb_matrix := _emb_matrix m;
     _emb_ids := _emb_ids m |}.

Definition set_faiss_index (i : option IndexIDMap) (m : Memory) : Memory :=
  {| _conn := _conn m; embedding_dim := embedding_dim m;
     _use_faiss := _use_faiss m; _faiss := _faiss m;
     _faiss_index := i; _intid_to_str := _intid_to_str m;
     _next_int_id := _next_int_id m; _emb_matrix := _emb_matrix m;
     _emb_ids := _emb_ids m |}.

Definition set_intid_to_str (t : list (Z * string)) (m : Memory) : Memory :=
  {| _conn := _conn m; embedding_dim := embedding_dim m;
     _use_faiss := _use_faiss m; _faiss := _faiss m;
     _faiss_index := _faiss_index m; _intid_to_str := t;
     _next_int_id := _next_int_id m; _emb_matrix := _emb_matrix m;
     _emb_ids := _emb_ids m |}.

Definition set_next_int_id (n : Z) (m : Memory) : Memory :=
  {| _conn := _conn m; embedding_dim := embedding_dim m;
     _use_faiss := _use_faiss m; _faiss := _faiss m;
     _faiss_index := _faiss_index m; _intid_to_str := _intid_to_str m;
     _next_int_id := n; _emb_matrix := _emb_matrix m;
     _emb_ids := _emb_ids m |}.

Definition set_emb_matrix (a : option ndarray) (m : Memory) : Memory :=
  {| _conn := _conn m; embedding_dim := embedding_dim m;
     _use_faiss := _use_faiss m; _faiss := _faiss m;
     _faiss_index := _faiss_index m; _intid_to_str := _intid_to_str m;
     _next_int_id := _next_int_id m; _emb_matrix := a;
     _emb_ids := _emb_ids m |}.

Definition set_emb_ids (l : list string) (m : Memory) : Memory :=
  {| _conn := _conn m; embedding_dim := embedding_dim m;
     _use_faiss := _use_faiss m; _faiss := _faiss m;
     _faiss_index := _faiss_index m; _intid_to_str := _intid_to_str m;
     _next_int_id := _next_int_id m; _emb_matrix := _emb_matrix m;
     _emb_ids := l |}.

(** [self.x]  and  [self.x = v] *)
Definition attr {A} (f : Memory -> A) : M A := read (fun w => f (self w)).
Definition assign (f : Memory -> Memory) : M unit := update (with_self f).

(** *** Files: existence, loads and writes *)

Definition put_fates (l : list write_fate) (dr : Directory) : Directory :=
  {| creatable := creatable dr; fates := l;
     index_faiss := index_faiss dr; meta_json := meta_json dr;
     embeddings_npy := embeddings_npy dr; emb_ids_json := emb_ids_json dr;
     metadata_json := metadata_json dr |}.

Definition put_index_faiss (f : file IndexIDMap) (dr : Directory)
  : Directory :=
  {| creatable := creatable dr; fates := fates dr;
     index_faiss := f; meta_json := meta_json dr;
     embeddings_npy := embeddings_npy dr; emb_ids_json := emb_ids_json dr;
     metadata_json := metadata_json dr |}.

Definition put_meta_json (f : file meta_payload) (dr : Directory)
  : Directory :=
  {| creatable := creatable dr; fates := fates dr;
     index_faiss := index_faiss dr; meta_json := f;
     embeddings_npy := embeddings_npy dr; emb_ids_json := emb_ids_json dr;
     metadata_json := metadata_json dr |}.

Definition put_embeddings_npy (f : file ndarray) (dr : Directory)
  : Directory :=
  {| creatable := creatable dr; fates := fates dr;
     index_faiss := index_faiss dr; meta_json := meta_json dr;
     embeddings_npy := f; emb_ids_json := emb_ids_json dr;
     metadata_json := metadata_json dr |}.

Definition put_emb_ids_json (f : file (list string)) (dr : Directory)
  : Directory :=
  {| creatable := creatable dr; fates := fates dr;
     index_faiss := index_faiss dr; meta_json := meta_json dr;
     embeddings_npy := embeddings_npy dr; emb_ids_json := f;
     metadata_json := metadata_json dr |}.

Definition put_metadata_json (f : file json) (dr : Directory) : Directory :=
  {| creatable := creatable dr; fates := fates dr;
     index_faiss := index_faiss dr; meta_json := meta_json dr;
     embeddings_npy := embeddings_npy dr; emb_ids_json := emb_ids_json dr;
     metadata_json := f |}.

(** [os.path.exists(path)] *)
Definition path_exists {A} (get : Directory -> file A) : M bool :=
  read (fun w => exists_ (get (dir w))).

(** Opening and loading a file: a missing file is an [OSError], an
    unparseable one raises the loader's exception [e]. *)
Definition load {A} (get : Directory -> file A) (e : exn) : M A :=
  fun w =>
    match get (dir w) with
    | Holds a => (Returns a, w)
    | Garbage => (Raises e, w)
    | Absent => (Raises OSError, w)
    end.

(** Writing a whole file ([open(path, "w")] and [json.dump], [np.save],
    [faiss.write_index]); the directory decides how the write ends. *)
Definition store {A} (put : file A -> Directory -> Directory) (content : A)
  : M unit :=
  fun w =>
    match fates (dir w) with
    | [] | Completes :: _ =>
        (Returns tt,
         with_dir (fun dr => put (Holds content) (put_fates (tl (fates dr)) dr))
                  w)
    | Refused :: rest =>
        (Raises OSError, with_dir (put_fates rest) w)
    | Torn :: rest =>
        (Raises OSError,
         with_dir (fun dr => put Garbage (put_fates rest dr)) w)
    end.

(** ** SQLite task queue *)

Definition _ensure_conn : M unit :=
  c <- attr _conn ;;
  (* aiosqlite.connect; CREATE TABLE IF NOT EXISTS tasks; commit *)
  when (negb c) (assign (set_conn true)).

(** [INSERT OR IGNORE INTO tasks (id, command) VALUES (?, ?)] *)
Definition insert_or_ignore (id cmd : string) (table : list task)
  : list task :=
  if existsb (fun t => String.eqb (task_id t) id) table
  then table
  else table ++ [{| task_id := id; command := cmd; task_status := pending;
                    result := None |}].

Definition add_task (id cmd : string) : M unit :=
  _ensure_conn ;;
  update (with_tasks (insert_or_ignore id cmd)).

(** [SELECT id, command FROM tasks WHERE status='pending' LIMIT 1] *)
Definition select_pending (table : list task) : option (string * string) :=
  match filter (fun t => match task_status t with
                         | pending => true
                         | done => false
                         end) table with
  | [] => None
  | t :: _ => Some (task_id t, command t)
  end.

Definition get_next_task : M (option (string * string)) :=
  _ensure_conn ;;
  read (fun w => select_pending (tasks w)).

(** [UPDATE tasks SET status=?, result=? WHERE id=?] with
    [("done", result, task_id)] *)
Definition update_where_id (id res : string) (table : list task)
  : list task :=
  map (fun t =>
         if String.eqb (task_id t) id
         then {| task_id := task_id t; command := command t;
                 task_status := done; result := Some res |}
         else t) table.

Definition store_result (id res : string) : M unit :=
  _ensure_conn ;;
  update (with_tasks (update_where_id id res)).

(** [Memory.close]; closing the connection drops the rows of a database
    that is no file. *)
Definition close : M unit :=
  c <- attr _conn ;;
  when c
    (kept <- read (fun w => db_persistent (runtime w)) ;;
     when (negb kept) (update (with_tasks (fun _ => []))) ;;
     assign (set_conn false)).

(** ** Vector store: the library calls *)

Definition or_else {A} (o : option A) (default : A) : A :=
  match o with Some a => a | None => default end.

Definition is_none {A} (o : option A) : bool :=
  match o with Some _ => false | None => true end.

(** [np.array([n], dtype=np.int64)]: out of the 64-bit range is an
    [OverflowError]. *)
Definition int64_array (n : Z) : option (list Z) :=
  if (- 2 ^ 63 <=? n) && (n <? 2 ^ 63) then Some [n] else None.

(** [index.add_with_ids(x, ids)]: the Python wrapper asserts that [x] has
    the index's dimension and as many rows as there are ids. *)
Definition add_with_ids (i : IndexIDMap) (x : ndarray) (ids : list Z)
  : option IndexIDMap :=
  if (ncols x =? index_d i) && Nat.eqb (length ids) (length (rows x))
  then Some {| index_d := index_d i;
               entries := entries i ++ combine ids (rows x) |}
  else None.

(** [index.remove_ids(ids)], where the build has it. *)
Definition remove_ids (i : IndexIDMap) (ids : list Z) : IndexIDMap :=
  {| index_d := index_d i;
     entries := filter (fun e => negb (existsb (Z.eqb (fst e)) ids))
                       (entries i) |}.

(** The first key of the mapping bound to [emb_id]: the [for k, v in ...]
    scan of [delete_embedding]. *)
Fixpoint find_key (items : list (Z * string)) (emb_id : string) : option Z :=
  match items with
  | [] => None
  | (k, v) :: rest => if String.eqb v emb_id then Some k else find_key rest emb_id
  end.

(** [lst.index(x)] where [x in lst], [None] where it is not. *)
Fixpoint index_of (x : string) (lst : list string) : option nat :=
  match lst with
  | [] => None
  | y :: rest =>
      if String.eqb y x then Some O
      else match index_of x rest with
           | Some i => Some (S i)
           | None => None
           end
  end.

(** ** Vector store: persistence *)

Definition _load_index : M unit :=
  use <- attr _use_faiss ;;
  fa <- attr _faiss ;;
  if use && fa then
    e <- path_exists index_faiss ;;
    when e (i <- load index_faiss RuntimeError ;;
            assign (set_faiss_index (Some i))) ;;
    e <- path_exists meta_json ;;
    when e (payload <- load meta_json ValueError ;;
            assign (set_intid_to_str
                      (Dict.of_items Z.eqb (or_else (id_map payload) []))) ;;
            assign (set_next_int_id (or_else (next_int_id_field payload) 1)))
  else
    e1 <- path_exists embeddings_npy ;;
    e2 <- path_exists emb_ids_json ;;
    when (e1 && e2)
      (np <- read (fun w => _HAS_NUMPY (runtime w)) ;;
       if negb np then raise AttributeError else
       m <- load embeddings_npy ValueError ;;
       assign (set_emb_matrix (Some m)) ;;
       ids <- load emb_ids_json ValueError ;;
       assign (set_emb_ids ids)).

Definition _save_index : M unit :=
  try_except
    (use <- attr _use_faiss ;;
     idx <- attr _faiss_index ;;
     match use, idx with
     | true, Some i =>
         store put_index_faiss i ;;
         t <- attr _intid_to_str ;;
         n <- attr _next_int_id ;;
         store put_meta_json {| id_map := Some t; next_int_id_field := Some n |}
     | _, _ =>
         m <- attr _emb_matrix ;;
         match m with
         | Some a => store put_embeddings_npy a
         | None => ret tt
         end ;;
         ids <- attr _emb_ids ;;
         store put_emb_ids_json ids
     end)
    (* best-effort *)
    (ret tt).

(** [await asyncio.to_thread(self._save_index)] *)
Definition _persist_index_async : M unit := _save_index.

(** The attributes [__init__] assigns before it touches the directory. *)
Definition blank (dim : Z) : Memory :=
  {| _conn := false; embedding_dim := dim;
     _use_faiss := false; _faiss := false;
     _faiss_index := None; _intid_to_str := []; _next_int_id := 1;
     _emb_matrix := None; _emb_ids := [] |}.

(** [Memory(db_path, index_dir, embedding_dim)]; [faiss_installed] tells
    whether [import faiss] succeeds. *)
Definition __init__ (dim : Z) (faiss_installed : bool) : M unit :=
  assign (fun _ => blank dim) ;;
  ok <- read (fun w => creatable (dir w)) ;;
  (* os.makedirs(self.index_dir, exist_ok=True) *)
  if negb ok then raise OSError else
  when faiss_installed (assign (set_faiss true)) ;;
  (* Start fresh if loading fails *)
  try_except _load_index (ret tt).

(** ** Vector store: the API *)

(** The [try] block that closes [add_embedding] (lines 224-233): read
    metadata.json if it exists, bind [emb_id], write the file back; any
    exception is dropped. *)
Definition merge_metadata (emb_id : string) (md : json) : M unit :=
  try_except
    (e <- path_exists metadata_json ;;
     existing <- (if e then load metadata_json ValueError
                  else ret empty_dict) ;;
     existing' <- or_raise (json_setitem existing emb_id md) TypeError ;;
     store put_metadata_json existing')
    (ret tt).

Definition add_embedding (emb_id : string) (vector : array_like)
                         (metadata : option json) : M unit :=
  np <- read (fun w => _HAS_NUMPY (runtime w)) ;;
  if negb np then raise RuntimeError else
  vec <- or_raise (as_2d vector) ValueError ;;
  dim <- attr embedding_dim ;;
  if negb (ncols vec =? dim) then raise ValueError else
  use <- attr _use_faiss ;;
  fa <- attr _faiss ;;
  (if use && fa then
     held <- attr _faiss_index ;;
     let index := or_else held {| index_d := dim; entries := [] |} in
     when (is_none held) (assign (set_faiss_index (Some index))) ;;
     int_id <- attr _next_int_id ;;
     assign (set_next_int_id (int_id + 1)) ;;
     t <- attr _intid_to_str ;;
     assign (set_intid_to_str (Dict.set Z.eqb t int_id emb_id)) ;;
     ids <- or_raise (int64_array int_id) OverflowError ;;
     index' <- or_raise (add_with_ids index vec ids) AssertionError ;;
     assign (set_faiss_index (Some index')) ;;
     _persist_index_async
   else
     m <- attr _emb_matrix ;;
     match m with
     | None => assign (set_emb_matrix (Some vec))
     | Some a =>
         a' <- or_raise (vstack a vec) ValueError ;;
         assign (set_emb_matrix (Some a'))
     end ;;
     ids <- attr _emb_ids ;;
     assign (set_emb_ids (ids ++ [emb_id])) ;;
     _persist_index_async) ;;
  (* store metadata beside index (append or create metadata file) *)
  match metadata with
  | Some md => merge_metadata emb_id md
  | None => ret tt
  end.

(** What a call of [search_embeddings] hands back: Python's [None], or a
    list of [(emb_id, score, metadata)]. *)
Inductive search_value : Type :=
| PyNone
| PyList (hits : list (string * F * json)).

(** In the source every statement from [results = []] down to
    [return results] (lines 254-295) is indented under the dimension test,
    after its [raise]: none of it is ever executed, and a query of the right
    dimension falls off the end of the function. *)
Definition search_embeddings (query_vector : array_like) (top_k : Z)
  : M search_value :=
  np <- read (fun w => _HAS_NUMPY (runtime w)) ;;
  if negb np then raise RuntimeError else
  q <- or_raise (as_2d query_vector) ValueError ;;
  dim <- attr embedding_dim ;;
  if negb (ncols q =? dim) then raise ValueError else
  ret PyNone.

Definition list_embedding_ids (m : Memory) : list string :=
  if _use_faiss m then Dict.values (_intid_to_str m) else _emb_ids m.

Definition get_metadata (emb_id : string) : M json :=
  e <- path_exists metadata_json ;;
  if e then
    try_except
      (payload <- load metadata_json ValueError ;;
       or_raise (json_get payload emb_id empty_dict) AttributeError)
      (ret empty_dict)
  else ret empty_dict.

(** The numpy fallback of [delete_embedding] (lines 343-351), reached
    whenever the FAISS test above it is false. *)
Definition delete_numpy_fallback (emb_id : string) : M bool :=
  ids <- attr _emb_ids ;;
  (* if self._emb_ids and emb_id in self._emb_ids *)
  match index_of emb_id ids with
  | Some idx =>
      m <- attr _emb_matrix ;;
      match m with
      | Some a =>
          np <- read (fun w => _HAS_NUMPY (runtime w)) ;;
          if negb np then raise AttributeError else
          a' <- or_raise (np_delete a idx) IndexError ;;
          assign (set_emb_matrix (Some a'))
      | None => ret tt
      end ;;
      assign (set_emb_ids (drop_at idx ids)) ;;
      _persist_index_async ;;
      ret true
  | None => ret false
  end.

Definition delete_embedding (emb_id : string) : M bool :=
  use <- attr _use_faiss ;;
  held <- attr _faiss_index ;;
  match use, held with
  | true, Some index =>
      t <- attr _intid_to_str ;;
      match find_key t emb_id with
      | None => ret false
      | Some int_id =>
          try_except
            (np <- read (fun w => _HAS_NUMPY (runtime w)) ;;
             if negb np then raise AttributeError else
             ids <- or_raise (int64_array int_id) OverflowError ;;
             can <- read (fun w => has_remove_ids (runtime w)) ;;
             if negb can then raise AttributeError else
             assign (set_faiss_index (Some (remove_ids index ids))))
            (* not supported; mark and continue *)
            (ret tt) ;;
          assign (set_intid_to_str (Dict.pop Z.eqb t int_id)) ;;
          _persist_index_async ;;
          ret true
      end
  | _, _ => delete_numpy_fallback emb_id
  end.

(** ** Histories of mutations *)

Inductive mutation : Type :=
| Add (emb_id : string) (vector : array_like) (metadata : option json)
| Delete (emb_id : string).

(** One call; the caller goes on whether it returned or raised. *)
Definition perform (o : mutation) (w : World) : World :=
  match o with
  | Add emb_id vector metadata => snd (add_embedding emb_id vector metadata w)
  | Delete emb_id => snd (delete_embedding emb_id w)
  end.

Definition replay (history : list mutation) (w : World) : World :=
  fold_left (fun w o => perform o w) history w.

(** A process started on a directory: the object [Memory(...)] builds. *)
Definition start (rt : Runtime) (dr : Directory) (table : list task)
                 (dim : Z) (faiss_installed : bool) : outcome unit * World :=
  __init__ dim faiss_installed
    {| runtime := rt; self := blank dim; dir := dr; tasks := table |}.

(** An index directory that does not exist yet and whose writes succeed. *)
Definition no_files : Directory :=
  {| creatable := true; fates := [];
     index_faiss := Absent; meta_json := Absent;
     embeddings_npy := Absent; emb_ids_json := Absent;
     metadata_json := Absent |}.

End Memory.

Arguments ndarray : clear implicits.
Arguments array_like : clear implicits.
Arguments IndexIDMap : clear implicits.
Arguments Memory : clear implicits.
Arguments Directory : clear implicits.
Arguments World : clear implicits.
Arguments M : clear implicits.
Arguments search_value : clear implicits.
Arguments mutation : clear implicits.
Arguments _save_index : simpl never.
Arguments _persist_index_async : simpl never.
Arguments merge_metadata : simpl never.

(** * Vocabulary of the properties *)

(** The list without its first occurrence of [x]. *)
Fixpoint remove_first (x : string) (l : list string) : list string :=
  match l with
  | [] => []
  | y :: rest => if String.eqb y x then rest else y :: remove_first x rest
  end.

Section Vocabulary.
Context {F : Type}.
Implicit Types w : World F.

(** Reading one task back by its id, [SELECT * FROM tasks WHERE id=?]: not
    a method of the class, the observation that the property of
    [store_result] is stated with. *)
Definition fetch (id : string) w : option task :=
  find (fun t => String.eqb (task_id t) id) (tasks w).

(** Every run of [c] takes a world to one related to it by [R]. *)
Definition keeps (R : World F -> World F -> Prop) {A} (c : M F A) : Prop :=
  forall w, R w (snd (c w)).

(** Only the index directory differs. *)
Definition same_memory (w w' : World F) : Prop :=
  runtime w' = runtime w /\ self w' = self w /\ tasks w' = tasks w.

(** The runtime, the configured dimension, the backend choice and the task
    table are what they were. *)
Definition same_setup (w w' : World F) : Prop :=
  runtime w' = runtime w /\
  embedding_dim (self w') = embedding_dim (self w) /\
  _use_faiss (self w') = _use_faiss (self w) /\
  _faiss (self w') = _faiss (self w) /\
  tasks w' = tasks w.

(** The runtime, the configured dimension and the task table are what they
    were. *)
Definition same_dimension (w w' : World F) : Prop :=
  runtime w' = runtime w /\
  embedding_dim (self w') = embedding_dim (self w) /\
  tasks w' = tasks w.

(** Two worlds with the same runtime and the same object: they may differ
    in every file and in how their writes will end. *)
Definition same_object (w1 w2 : World F) : Prop :=
  runtime w1 = runtime w2 /\ self w1 = self w2.

(** A computation whose outcome and whose effect on the object do not
    depend on the directory. *)
Definition disk_blind {A} (c : M F A) : Prop :=
  forall w1 w2, same_object w1 w2 ->
    fst (c w1) = fst (c w2) /\ same_object (snd (c w1)) (snd (c w2)).

(** What the methods keep between the attributes of one store: the two
    FAISS flags agree; with the FAISS backend the id list of the fallback is
    empty, the mapping has one binding per integer id, and it is empty while
    no index is held; with the numpy backend the matrix has one row per
    id. *)
Definition coherent w : Prop :=
  _faiss (self w) = _use_faiss (self w) /\
  if _use_faiss (self w) then
    _emb_ids (self w) = [] /\
    NoDup (map fst (_intid_to_str (self w))) /\
    (_faiss_index (self w) = None -> _intid_to_str (self w) = [])
  else
    match _emb_matrix (self w) with
    | None => _emb_ids (self w) = []
    | Some a =>
        _HAS_NUMPY (runtime w) = true /\
        length (rows a) = length (_emb_ids (self w))
    end.

(** One row: a flat vector, or a list holding one vector. *)
Definition single_vector (x : array_like F) : Prop :=
  forall a, as_2d x = Some a -> length (rows a) = 1%nat.

Definition adds_single_vectors (o : mutation F) : Prop :=
  match o with
  | Add _ vector _ => single_vector vector
  | Delete _ => True
  end.

(** When the mutations add only ids that are not held at that moment. *)
Fixpoint adds_only_new_ids (history : list (mutation F)) w : Prop :=
  match history with
  | [] => True
  | o :: rest =>
      match o with
      | Add emb_id _ _ => ~ In emb_id (list_embedding_ids (self w))
      | Delete _ => True
      end /\
      adds_only_new_ids rest (perform o w)
  end.

End Vocabulary.

(** ** The scenario of the specification: [embedding_dim=4] on a directory
    with no files *)

Definition with_numpy : Runtime :=
  {| _HAS_NUMPY := true; has_remove_ids := true; db_persistent := true |}.

(** [Memory(embedding_dim=4)] where faiss is not installed. *)
Definition brute_force_store : World Z :=
  snd (start with_numpy no_files [] 4 false).

(** [Memory(embedding_dim=4)] where faiss is installed. *)
Definition indexed_store : World Z :=
  snd (start with_numpy no_files [] 4 true).

Definition e1 : list Z := [1; 0; 0; 0].
Definition e2 : list Z := [0; 1; 0; 0].

(** The scenario of the specification: add ["a"], add ["b"], delete ["a"],
    then query with the vector of ["a"]. *)
Definition a_b_without_a : list (mutation Z) :=
  [Add "a" (Flat e1) None; Add "b" (Flat e2) None; Delete "a"].

(** The brute-force store of the scenario on a directory that refuses its
    next two writes. *)
Definition refusing_store : World Z :=
  with_dir (put_fates [Refused; Refused]) brute_force_store.

(** The scenario of the specification, one step further: ["a"] is added
    twice. *)
Definition twice_a : list (mutation Z) :=
  [Add "a" (Flat e1) None; Add "a" (Flat e1) None].

Definition a_then_b : list (mutation Z) :=
  [Add "a" (Flat e1) None; Add "b" (Flat e2) None].

(** Delete-then-reinsert: the way an id gets another vector. *)
Definition a_replaced : list (mutation Z) :=
  [Add "a" (Flat e1) None; Add "b" (Flat e2) None;
   Delete "a"; Add "a" (Flat e2) None].

(** The metadata given to ["a"] and ["b"], and the store that holds both:
    its metadata.json was written by the two adds. *)
Definition note_a : json := JObj [("note", JStr "first")].
Definition note_b : json := JObj [("note", JStr "second")].

Definition noted_store : World Z :=
  replay [Add "a" (Flat e1) (Some note_a); Add "b" (Flat e2) (Some note_b)]
         brute_force_store.

(** The directory a brute-force store leaves behind when the second write
    of its first snapshot is torn: embeddings.npy is whole, emb_ids.json is
    not. *)
Definition torn_snapshot : Directory Z :=
  dir (snd (add_embedding "a" (Flat e1) None
              (with_dir (put_fates [Completes; Torn]) brute_force_store))).

(** * The rest of the code: further vocabulary

    The task queue as the orchestrator drives it, restarts on the directory
    a store leaves behind, and the brute-force store read as a table. *)

(** One call of the queue API, as the orchestrator makes them. *)
Inductive queue_call : Type :=
| AddTask (id cmd : string)
| GetNextTask
| StoreResult (id res : string)
| Close.

Definition is_pending (t : task) : bool :=
  match task_status t with pending => true | done => false end.

Section FurtherVocabulary.
Context {F : Type}.
Implicit Types w : World F.
Local Open Scope list_scope.

Definition call (c : queue_call) w : World F :=
  match c with
  | AddTask id cmd => snd (add_task id cmd w)
  | GetNextTask => snd (get_next_task w)
  | StoreResult id res => snd (store_result id res w)
  | Close => snd (close w)
  end.

Definition calls (l : list queue_call) w : World F :=
  fold_left (fun w c => call c w) l w.

(** The number of tasks still waiting. *)
Definition backlog w : nat := length (filter is_pending (tasks w)).

(** A new process on the directory and the database of [w], configured as
    [w] is: [Memory(..., embedding_dim=...)] with the same faiss
    availability.  It finds the rows of a database file, and none of a
    database that is no file. *)
Definition restart w : World F :=
  snd (start (runtime w) (dir w)
             (if db_persistent (runtime w) then tasks w else [])
             (embedding_dim (self w)) (_use_faiss (self w))).

(** The two objects hold the same embeddings: the fields of the backend in
    use agree. *)
Definition same_embeddings (m1 m2 : Memory F) : Prop :=
  _use_faiss m1 = _use_faiss m2 /\
  if _use_faiss m2 then
    _faiss_index m1 = _faiss_index m2 /\
    _intid_to_str m1 = _intid_to_str m2 /\
    _next_int_id m1 = _next_int_id m2
  else
    _emb_matrix m1 = _emb_matrix m2 /\
    _emb_ids m1 = _emb_ids m2.

(** The snapshot files hold what the object holds. *)
Definition snapshot_is_current w : Prop :=
  if _use_faiss (self w) then
    exists index,
      _faiss_index (self w) = Some index /\
      index_faiss (dir w) = Holds index /\
      meta_json (dir w)
      = Holds {| id_map := Some (_intid_to_str (self w));
                 next_int_id_field := Some (_next_int_id (self w)) |}
  else
    exists a,
      _emb_matrix (self w) = Some a /\
      embeddings_npy (dir w) = Holds a /\
      emb_ids_json (dir w) = Holds (_emb_ids (self w)).

(** The snapshot files and the permission to create the directory are what
    they were, and so is everything but the directory. *)
Definition same_snapshot_files w w' : Prop :=
  same_memory w w' /\
  creatable (dir w') = creatable (dir w) /\
  index_faiss (dir w') = index_faiss (dir w) /\
  meta_json (dir w') = meta_json (dir w) /\
  embeddings_npy (dir w') = embeddings_npy (dir w) /\
  emb_ids_json (dir w') = emb_ids_json (dir w).

(** The mutation returned normally, and a delete found its id. *)
Definition succeeded (o : mutation F) w : Prop :=
  match o with
  | Add emb_id vector metadata =>
      fst (add_embedding emb_id vector metadata w) = Returns tt
  | Delete emb_id => fst (delete_embedding emb_id w) = Returns true
  end.

(** Everything but the snapshot files is what it was, and a directory whose
    writes all complete stays one. *)
Definition spares_metadata w w' : Prop :=
  same_memory w w' /\
  metadata_json (dir w') = metadata_json (dir w) /\
  (fates (dir w) = [] -> fates (dir w') = []).

(** The table of metadata a file stands for, when it can be merged into:
    no file is the empty table, a file holding a dict is that dict. *)
Definition metadata_table (f : file json) : option (list (string * json)) :=
  match f with
  | Absent => Some []
  | Holds (JObj fields) => Some fields
  | _ => None
  end.

(** Every integer id bound in the mapping was handed out by the counter:
    it lies below [_next_int_id]. *)
Definition keys_below_counter (m : Memory F) : Prop :=
  Forall (fun kv => fst kv < _next_int_id m) (_intid_to_str m).

(** The brute-force store read as a table: each id with the row at its
    position. *)
Definition pairs (m : Memory F) : list (string * list F) :=
  combine (_emb_ids m)
          (match _emb_matrix m with Some a => rows a | None => [] end).

(** The vector an id stands for: the row of its first occurrence. *)
Definition vector_of (m : Memory F) (emb_id : string) : option (list F) :=
  Dict.get String.eqb (pairs m) emb_id.

(** Every row held, in the matrix or in the index, has the configured
    number of entries. *)
Definition well_shaped (m : Memory F) : Prop :=
  match _emb_matrix m with
  | Some a =>
      ncols a = embedding_dim m /\
      Forall (fun r => Z.of_nat (length r) = embedding_dim m) (rows a)
  | None => True
  end /\
  match _faiss_index m with
  | Some index =>
      index_d index = embedding_dim m /\
      Forall (fun e => Z.of_nat (length (snd e)) = embedding_dim m)
             (entries index)
  | None => True
  end.


End FurtherVocabulary.

(** ** Further scenarios *)

(** A table with one finished task and two waiting ones. *)
Definition three_tasks : World Z :=
  with_tasks
    (fun _ =>
       [{| task_id := "t1"; command := "whois example.org";
           task_status := done; result := Some "ok" |};
        {| task_id := "t2"; command := "nmap -sV 10.0.0.5";
           task_status := pending; result := None |};
        {| task_id := "t3"; command := "ping 10.0.0.5";
           task_status := pending; result := None |}])
    brute_force_store.

(** [Memory(db_path=":memory:", ..., embedding_dim=4)], the store of the
    demo at the end of memory.py, after one [add_task]. *)
Definition in_memory : Runtime :=
  {| _HAS_NUMPY := true; has_remove_ids := true; db_persistent := false |}.

Definition demo_store_with_a_task : World Z :=
  call (AddTask "t1" "whois example.org")
       (snd (start in_memory no_files [] 4 false)).

(** The stores of the scenario after ["a"] was added. *)
Definition brute_force_with_a : World Z :=
  replay [Add "a" (Flat e1) None] brute_force_store.

Definition indexed_with_a : World Z :=
  replay [Add "a" (Flat e1) None] indexed_store.

(** [Memory(embedding_dim=3)] started on the directory a store of
    dimension 4 left behind, without and with faiss. *)
Definition rewidthed_store : World Z :=
  snd (start with_numpy (dir brute_force_with_a) [] 3 false).

Definition rewidthed_index : World Z :=
  snd (start with_numpy (dir indexed_with_a) [] 3 true).

(** A brute-force store restarted on a snapshot with one row and two ids:
    the matrix write of a delete completed, its id-list write was
    refused. *)
Definition misaligned_store : World Z :=
  snd (start with_numpy
         (dir (snd (delete_embedding "b"
                      (with_dir (put_fates [Completes; Refused])
                                (replay a_then_b brute_force_store)))))
         [] 4 false).

(** A history with a two-row add, a delete and an add of the wrong
    dimension. *)
Definition mixed_history : list (mutation Z) :=
  [Add "a" (Nested [e1; e2]) None; Delete "a"; Add "c" (Flat [1; 2]) None].

(** * The risk heuristic of the orchestrator (src/Agent/main.py)

    Commands are taken as ASCII text: [str.lower] is the ASCII one. *)

Module Agent.
Local Open Scope string_scope.

(** One character of [s.lower()]. *)
Definition lower_char (c : ascii) : ascii :=
  let n := nat_of_ascii c in
  if (Nat.leb 65 n && Nat.leb n 90)%bool then ascii_of_nat (n + 32) else c.

(** [s.lower()] *)
Fixpoint lower (s : string) : string :=
  match s with
  | EmptyString => EmptyString
  | String c rest => String (lower_char c) (lower rest)
  end.

(** [s.startswith(k)] *)
Fixpoint starts_with (k s : string) : bool :=
  match k, s with
  | EmptyString, _ => true
  | String a k', String b s' => (Ascii.eqb a b && starts_with k' s')%bool
  | String _ _, EmptyString => false
  end.

(** [k in s]: [k] occurs in [s] as a substring. *)
Fixpoint occurs_in (k s : string) : bool :=
  (starts_with k s
   || match s with
      | EmptyString => false
      | String _ rest => occurs_in k rest
      end)%bool.

Definition low_risk_keywords : list string :=
  ["ping"; "curl"; "wget"; "whois"; "nslookup"].
Definition med_risk_keywords : list string :=
  ["nmap"; "masscan"; "scan"].
Definition high_risk_keywords : list string :=
  ["exploit"; "rm -rf"; "shutdown"; "reboot"].

(** [any(k in cmd for k in keywords)] *)
Definition any_in (keywords : list string) (cmd : string) : bool :=
  existsb (fun k => occurs_in k cmd) keywords.

(** [Agent._assess_risk]; [None] is Python's [None], read as the empty
    string by [(command or ...)]. *)
Definition _assess_risk (command : option string) : Z :=
  let cmd := lower (match command with
                    | Some c => c
                    | None => EmptyString
                    end) in
  if any_in high_risk_keywords cmd then 5
  else if any_in med_risk_keywords cmd then 3
  else if any_in low_risk_keywords cmd then 1
  else 2.

(** The test [risk >= 3] of [run_once]: the task waits for a human. *)
Definition needs_approval (command : option string) : bool :=
  (3 <=? _assess_risk command)%Z.

(** [s.upper()], for stating that the case of a command does not matter. *)
Definition upper_char (c : ascii) : ascii :=
  let n := nat_of_ascii c in
  if (Nat.leb 97 n && Nat.leb n 122)%bool then ascii_of_nat (n - 32) else c.

Fixpoint upper (s : string) : string :=
  match s with
  | EmptyString => EmptyString
  | String c rest => String (upper_char c) (upper rest)
  end.

End Agent.

(** * The run context of the orchestrator (src/Agent/context.py) *)

Module Ctx.
Local Open Scope string_scope.

(** The document [save_context] keeps in context.json:
    [{"operation_id": ..., "start_time": ..., "metadata": {...},
    "temp_json": ..., "logs": [...]}]; a key may be missing, [load_context]
    reads each with [.get]. *)
Record context_payload : Type := {
  operation_id : option string;
  start_time_text : option string;
  metadata_doc : option (list (string * json));
  temp_json_doc : option json;
  logs_doc : option (list json)
}.

(** [s.replace("Z", ...)] with the empty string. *)
Fixpoint without_Z (s : string) : string :=
  match s with
  | EmptyString => EmptyString
  | String c rest =>
      if Ascii.eqb c "Z" then without_Z rest else String c (without_Z rest)
  end.

(** [d.update(other)]: the bindings of [other], in its order, assigned one
    by one. *)
Definition dict_update (d other : list (string * json))
  : list (string * json) :=
  fold_left (fun acc kv => Dict.set String.eqb acc (fst kv) (snd kv)) other d.

Section Context.

(** Timestamps are the floats of [time.time()]; what the [datetime] and
    [time] modules do with them stays abstract. *)
Context {T : Type}.

(** [datetime.utcfromtimestamp(t).isoformat()], or the exception it
    raises on a timestamp out of range. *)
Variable isoformat_utc : T -> outcome string.

(** [time.mktime(datetime.fromisoformat(s).timetuple())]; [None] where
    either call raises. *)
Variable mktime_iso : string -> option T.

(** The fields of the dataclass, after [__post_init__]. *)
Record Context : Type := {
  run_id : string;
  start_time : T;
  metadata : list (string * json);
  temp_json : json;
  logs : list json
}.

(** The object and the two files it writes, context.json and
    logs/penzer.log. *)
Record Surroundings : Type := {
  ctx : Context;
  context_json : file context_payload;
  logs_dir_creatable : bool;            (* [os.makedirs("logs")] succeeds *)
  penzer_log : file (list string);      (* the lines of the log *)
  fates : list write_fate               (* how the next writes end *)
}.

Definition with_ctx (f : Context -> Context) (s : Surroundings)
  : Surroundings :=
  {| ctx := f (ctx s); context_json := context_json s;
     logs_dir_creatable := logs_dir_creatable s;
     penzer_log := penzer_log s; fates := fates s |}.

Definition set_metadata (m : list (string * json)) (c : Context) : Context :=
  {| run_id := run_id c; start_time := start_time c; metadata := m;
     temp_json := temp_json c; logs := logs c |}.

Definition set_temp_json (j : json) (c : Context) : Context :=
  {| run_id := run_id c; start_time := start_time c;
     metadata := metadata c; temp_json := j; logs := logs c |}.

Definition set_logs (l : list json) (c : Context) : Context :=
  {| run_id := run_id c; start_time := start_time c;
     metadata := metadata c; temp_json := temp_json c; logs := l |}.

(** [Context.update] *)
Definition update (key : string) (value : json) (c : Context) : Context :=
  set_metadata (Dict.set String.eqb (metadata c) key value) c.

(** [Context.get] *)
Definition get (key : string) (default : json) (c : Context) : json :=
  match Dict.get String.eqb (metadata c) key with
  | Some v => v
  | None => default
  end.

(** [Context.store_temp_json] *)
Definition store_temp_json (data : json) (c : Context) : Context :=
  set_temp_json data c.

(** [Context.clear_temp_json] *)
Definition clear_temp_json (c : Context) : Context :=
  set_temp_json empty_dict c.

(** [Context.temp_json_str]; [dumps] is [json.dumps(..., indent=2)]. *)
Definition temp_json_str (dumps : json -> string) (c : Context) : string :=
  dumps (temp_json c).

(** One write of the whole file, ended as the next fate says. *)
Definition write_context_json (p : context_payload) (s : Surroundings)
  : outcome unit * Surroundings :=
  match fates s with
  | [] | Completes :: _ =>
      (Returns tt,
       {| ctx := ctx s; context_json := Holds p;
          logs_dir_creatable := logs_dir_creatable s;
          penzer_log := penzer_log s; fates := tl (fates s) |})
  | Refused :: rest =>
      (Raises OSError,
       {| ctx := ctx s; context_json := context_json s;
          logs_dir_creatable := logs_dir_creatable s;
          penzer_log := penzer_log s; fates := rest |})
  | Torn :: rest =>
      (Raises OSError,
       {| ctx := ctx s; context_json := Garbage;
          logs_dir_creatable := logs_dir_creatable s;
          penzer_log := penzer_log s; fates := rest |})
  end.

(** [Context.save_context()], on its default path. *)
Definition save_context (s : Surroundings) : outcome unit * Surroundings :=
  let c := ctx s in
  match isoformat_utc (start_time c) with
  | Raises e => (Raises e, s)
  | Returns iso =>
      write_context_json
        {| operation_id := Some (run_id c);
           start_time_text := Some (iso ++ "Z");
           metadata_doc := Some (metadata c);
           temp_json_doc := Some (temp_json c);
           logs_doc := Some (logs c) |}
        s
  end.

(** [Context.load_context()], on its default path. *)
Definition load_context (s : Surroundings) : outcome unit * Surroundings :=
  match context_json s with
  | Absent => (Returns tt, s)
  | Garbage => (Raises ValueError, s)
  | Holds payload =>
      let c := ctx s in
      (Returns tt,
       with_ctx
         (fun _ =>
            {| run_id := match operation_id payload with
                         | Some id => id
                         | None => run_id c
                         end;
               (* keep existing start_time if not provided *)
               start_time :=
                 match start_time_text payload with
                 | Some text =>
                     match mktime_iso (without_Z text) with
                     | Some t => t
                     | None => start_time c
                     end
                 | None => start_time c
                 end;
               metadata :=
                 dict_update (metadata c)
                   (match metadata_doc payload with
                    | Some m => m
                    | None => []
                    end);
               temp_json := match temp_json_doc payload with
                            | Some j => j
                            | None => empty_dict
                            end;
               logs := match logs_doc payload with
                       | Some l => l
                       | None => []
                       end |})
         s)
  end.

(** The entry [append_log] builds; [now] is
    [datetime.utcnow().isoformat() + "Z"]. *)
Definition log_entry (now module action status : string)
                     (details : option (list (string * json)))
                     (c : Context) : json :=
  JObj [("timestamp", JStr now); ("module", JStr module);
        ("action", JStr action); ("status", JStr status);
        ("details", JObj (match details with
                          | Some d => d
                          | None => []
                          end));
        ("operation_id", JStr (run_id c))].

(** [open(log_path, "a")] and the write of one line. *)
Definition append_line (line : string) (s : Surroundings)
  : outcome unit * Surroundings :=
  let put (f : file (list string)) (rest : list write_fate) :=
    {| ctx := ctx s; context_json := context_json s;
       logs_dir_creatable := logs_dir_creatable s;
       penzer_log := f; fates := rest |} in
  match fates s with
  | [] | Completes :: _ =>
      match penzer_log s with
      | Absent => (Returns tt, put (Holds [line]) (tl (fates s)))
      | Holds lines =>
          (Returns tt, put (Holds (lines ++ [line])%list) (tl (fates s)))
      | Garbage => (Raises OSError, put Garbage (tl (fates s)))
      end
  | Refused :: rest => (Raises OSError, put (penzer_log s) rest)
  | Torn :: rest => (Raises OSError, put Garbage rest)
  end.

(** [Context.append_log(module, action, status, details)], on its default
    log path; [dumps] is [json.dumps]. *)
Definition append_log (dumps : json -> string)
                      (now module action status : string)
                      (details : option (list (string * json)))
                      (s : Surroundings) : outcome unit * Surroundings :=
  let entry := log_entry now module action status details (ctx s) in
  let s1 := with_ctx (fun c => set_logs (logs c ++ [entry])%list c) s in
  (* ensure log directory exists *)
  if negb (logs_dir_creatable s1) then (Raises OSError, s1) else
  (* best-effort logging; don't raise *)
  (Returns tt,
   snd (append_line (dumps entry ++ String (ascii_of_nat 10) EmptyString) s1)).

End Context.

Arguments Context : clear implicits.
Arguments Surroundings : clear implicits.

(** A context with two settings, where neither file exists yet. *)
Definition sample : Surroundings Z :=
  {| ctx := {| run_id := "run_20261103_120000_ab12cd"; start_time := 0%Z;
               metadata := [("selected_model", JStr "gemini-2.0");
                            ("system_prompt", JStr "be careful")];
               temp_json := JObj [("exitcode", JNum 0)];
               logs := [] |};
     context_json := Absent;
     logs_dir_creatable := true;
     penzer_log := Absent;
     fates := [] |}.

(** The context of a later process. *)
Definition later_context : Context Z :=
  {| run_id := "run_20261104_080000_000000"; start_time := 7%Z;
     metadata := [("selected_model", JStr "other")];
     temp_json := empty_dict; logs := [] |}.

End Ctx.

(** * The prompt loader (src/Agent/prompts.py) *)

Module Prompts.
Local Open Scope string_scope.

(** The extensions [_prompt_path] tries, in its order. *)
Definition extensions : list string :=
  [".md"; ".txt"; ".prompt"; EmptyString].

(** [default or ...] with the empty string. *)
Definition or_empty (default : option string) : string :=
  match default with
  | Some d => d
  | None => EmptyString
  end.

Section Prompts.

(** What [Path(cfg.PROMPT_DIR) / s] is on disk, for every [s].  [Raises e]:
    the path cannot be examined, [p.exists()] raises [e] (a name longer
    than the file system takes, a directory that may not be searched).
    [Returns f]: it can, and the path is missing; there but not readable as
    text ([read_text] raises: a directory, bytes that are not UTF-8, no
    permission); or a file with its text. *)
Variable entry : string -> outcome (file string).

(** The loop of [_prompt_path]: the first candidate that exists. *)
Fixpoint first_existing (name : string) (exts : list string)
  : outcome (option string) :=
  match exts with
  | [] => Returns None
  | ext :: rest =>
      match entry (name ++ ext) with
      | Raises e => Raises e
      | Returns Absent => first_existing name rest
      | Returns _ => Returns (Some (name ++ ext))
      end
  end.

(** [_prompt_path(name)], as the [s] of [Path(cfg.PROMPT_DIR) / s]. *)
Definition _prompt_path (name : string) : outcome string :=
  match first_existing name extensions with
  | Raises e => Raises e
  | Returns (Some p) => Returns p
  (* default to markdown path *)
  | Returns None => Returns (name ++ ".md")
  end.

(** [load_prompt(name, default)]; the call of [_prompt_path] is outside
    the [try]. *)
Definition load_prompt (name : string) (default : option string)
  : outcome string :=
  match _prompt_path name with
  | Raises e => Raises e
  | Returns p =>
      match entry p with
      | Returns (Holds text) => Returns text
      | _ => Returns (or_empty default)
      end
  end.

End Prompts.

(** A prompts directory where [system_prompt.md] is a directory and
    [system_prompt.txt] a readable file. *)
Definition shadowed (s : string) : outcome (file string) :=
  if String.eqb s "system_prompt.md" then Returns Garbage
  else if String.eqb s "system_prompt.txt"
       then Returns (Holds "You are Penzer.")
  else Returns Absent.

(** An empty prompts directory on a file system whose names have at most
    255 bytes, and a name of 252. *)
Definition empty_directory (s : string) : outcome (file string) :=
  if Nat.ltb 255 (String.length s) then Raises OSError else Returns Absent.

Definition name_of_252 : string :=
  String.concat EmptyString (repeat "prompt" 42).

End Prompts.

(** * Properties *)

Ltac monad_unfold :=
  unfold attr, assign, when, or_raise, path_exists, load, bind, ret, raise,
         try_except, read, update in *.

Section Frames.
Context {F : Type}.

(** ** Composition of steps *)

Section Keeps.
Variable R : World F -> World F -> Prop.
Hypothesis R_refl : forall w, R w w.
Hypothesis R_trans : forall a b c, R a b -> R b c -> R a c.

Lemma keeps_ret A (a : A) : keeps R (ret a).
Proof. intros w. apply R_refl. Qed.

Lemma keeps_raise A e : keeps R (@raise F A e).
Proof. intros w. apply R_refl. Qed.

Lemma keeps_read A (f : World F -> A) : keeps R (read f).
Proof. intros w. apply R_refl. Qed.

Lemma keeps_attr A (f : Memory F -> A) : keeps R (attr f).
Proof. intros w. apply R_refl. Qed.

Lemma keeps_path_exists A (get : Directory F -> file A) :
  keeps R (path_exists get).
Proof. intros w. apply R_refl. Qed.

Lemma keeps_load A (get : Directory F -> file A) e : keeps R (load get e).
Proof. intros w. unfold load. destruct (get (dir w)); apply R_refl. Qed.

Lemma keeps_or_raise A (o : option A) e : keeps R (or_raise o e).
Proof. intros w. destruct o; apply R_refl. Qed.

Lemma keeps_bind A B (c : M F A) (k : A -> M F B) :
  keeps R c -> (forall a, keeps R (k a)) -> keeps R (bind c k).
Proof.
  intros Hc Hk w. unfold bind. specialize (Hc w).
  destruct (c w) as [[a | e] w']; simpl in *.
  - eapply R_trans; [exact Hc | apply Hk].
  - exact Hc.
Qed.

Lemma keeps_try A (c h : M F A) :
  keeps R c -> keeps R h -> keeps R (try_except c h).
Proof.
  intros Hc Hh w. unfold try_except. specialize (Hc w).
  destruct (c w) as [[a | e] w']; simpl in *.
  - exact Hc.
  - eapply R_trans; [exact Hc | apply Hh].
Qed.

Lemma keeps_when b (c : M F unit) : keeps R c -> keeps R (when b c).
Proof. intros Hc. destruct b; simpl; [exact Hc | apply keeps_ret]. Qed.
End Keeps.

Lemma same_memory_refl (w : World F) : same_memory w w.
Proof. repeat split. Qed.

Lemma same_memory_trans (a b c : World F) :
  same_memory a b -> same_memory b c -> same_memory a c.
Proof. unfold same_memory. intuition congruence. Qed.

Lemma same_setup_refl (w : World F) : same_setup w w.
Proof. repeat split. Qed.

Lemma same_setup_trans (a b c : World F) :
  same_setup a b -> same_setup b c -> same_setup a c.
Proof. unfold same_setup. intuition congruence. Qed.

Lemma same_memory_setup (w w' : World F) : same_memory w w' -> same_setup w w'.
Proof. unfold same_memory, same_setup. intuition congruence. Qed.

End Frames.

(** Splits a method body along its binds, handlers and branches; what stays
    are the assignments, the writes and the calls of other methods. *)
Ltac frame refl trans :=
  repeat match goal with
  | |- keeps _ (bind _ _) => apply (keeps_bind _ trans); [| intro]
  | |- keeps _ (try_except _ _) => apply (keeps_try _ trans)
  | |- keeps _ (when _ _) => apply (keeps_when _ refl)
  | |- keeps _ (ret _) => apply (keeps_ret _ refl)
  | |- keeps _ (raise _) => apply (keeps_raise _ refl)
  | |- keeps _ (read _) => apply (keeps_read _ refl)
  | |- keeps _ (attr _) => apply (keeps_attr _ refl)
  | |- keeps _ (path_exists _) => apply (keeps_path_exists _ refl)
  | |- keeps _ (load _ _) => apply (keeps_load _ refl)
  | |- keeps _ (or_raise _ _) => apply (keeps_or_raise _ refl)
  | |- keeps _ (if ?b then _ else _) => destruct b
  | |- keeps _ (match ?x with _ => _ end) => destruct x
  end.

Section Persistence.
Context {F : Type}.
Implicit Types w : World F.

(** ** Writes touch the directory only, and [_save_index] never raises *)

Lemma store_same_memory A (put : file A -> Directory F -> Directory F)
      (content : A) :
  keeps same_memory (store put content).
Proof.
  intros w. unfold store.
  destruct (fates (dir w)) as [| [] rest]; repeat split.
Qed.

Lemma _save_index_same_memory : keeps (F:=F) same_memory _save_index.
Proof.
  unfold _save_index.
  frame (@same_memory_refl F) (@same_memory_trans F);
    apply store_same_memory.
Qed.

Lemma _save_index_returns w : fst (_save_index w) = Returns tt.
Proof.
  unfold _save_index, try_except.
  match goal with |- context [match ?c w with _ => _ end] =>
    destruct (c w) as [[[] | e] w'] end; reflexivity.
Qed.

Lemma _persist_index_async_same_memory :
  keeps (F:=F) same_memory _persist_index_async.
Proof. exact _save_index_same_memory. Qed.

Lemma _persist_index_async_returns w :
  fst (_persist_index_async w) = Returns tt.
Proof. apply _save_index_returns. Qed.

Lemma merge_metadata_same_memory emb_id md :
  keeps (F:=F) same_memory (merge_metadata emb_id md).
Proof.
  unfold merge_metadata.
  frame (@same_memory_refl F) (@same_memory_trans F);
    apply store_same_memory.
Qed.

Lemma merge_metadata_returns emb_id md w :
  fst (merge_metadata emb_id md w) = Returns tt.
Proof.
  unfold merge_metadata, try_except.
  match goal with |- context [match ?c w with _ => _ end] =>
    destruct (c w) as [[[] | e] w'] end; reflexivity.
Qed.

(** ** No mutation changes the setup *)

Lemma assign_same_setup (f : Memory F -> Memory F) :
  (forall m, embedding_dim (f m) = embedding_dim m /\
             _use_faiss (f m) = _use_faiss m /\
             _faiss (f m) = _faiss m) ->
  keeps same_setup (assign f).
Proof.
  intros Hf w. destruct (Hf (self w)) as (H1 & H2 & H3).
  repeat split; assumption.
Qed.

Lemma add_embedding_same_setup emb_id vector metadata :
  keeps (F:=F) same_setup (add_embedding emb_id vector metadata).
Proof.
  unfold add_embedding.
  frame (@same_setup_refl F) (@same_setup_trans F);
    try (apply assign_same_setup; intros; repeat split);
    intros w; apply same_memory_setup;
    first [ apply _persist_index_async_same_memory
          | apply merge_metadata_same_memory ].
Qed.

Lemma delete_embedding_same_setup emb_id :
  keeps (F:=F) same_setup (delete_embedding emb_id).
Proof.
  unfold delete_embedding, delete_numpy_fallback.
  frame (@same_setup_refl F) (@same_setup_trans F);
    try (apply assign_same_setup; intros; repeat split);
    intros w; apply same_memory_setup;
    apply _persist_index_async_same_memory.
Qed.

Lemma perform_same_setup o w : same_setup w (perform o w).
Proof.
  destruct o; simpl.
  - apply add_embedding_same_setup.
  - apply delete_embedding_same_setup.
Qed.

Lemma replay_same_setup history w : same_setup w (replay history w).
Proof.
  revert w. induction history as [| o rest IH]; intros w; simpl.
  - apply same_setup_refl.
  - eapply same_setup_trans; [apply perform_same_setup | apply IH].
Qed.

End Persistence.

Section Queries.
Context {F : Type}.
Implicit Types w : World F.

(** ** Construction *)

Lemma same_dimension_refl (w : World F) : same_dimension w w.
Proof. repeat split. Qed.

Lemma same_dimension_trans (a b c : World F) :
  same_dimension a b -> same_dimension b c -> same_dimension a c.
Proof. unfold same_dimension. intuition congruence. Qed.

Lemma assign_same_dimension (f : Memory F -> Memory F) :
  (forall m, embedding_dim (f m) = embedding_dim m) ->
  keeps same_dimension (assign f).
Proof. intros Hf w. repeat split. apply Hf. Qed.

Lemma _load_index_same_dimension : keeps (F:=F) same_dimension _load_index.
Proof.
  unfold _load_index.
  frame same_dimension_refl same_dimension_trans;
    apply assign_same_dimension; reflexivity.
Qed.

Lemma start_same_dimension rt (dr : Directory F) table dim faiss_installed :
  let w := snd (start rt dr table dim faiss_installed) in
  runtime w = rt /\ embedding_dim (self w) = dim /\ tasks w = table.
Proof.
  unfold start, __init__.
  match goal with |- context [bind (assign ?f) ?k ?w0] =>
    change (bind (assign f) k w0) with (k tt (with_self f w0));
    assert (Hkeep : keeps same_dimension (k tt))
  end.
  { frame same_dimension_refl same_dimension_trans.
    - apply assign_same_dimension. reflexivity.
    - apply _load_index_same_dimension. }
  cbv zeta. apply Hkeep.
Qed.

(** ** What a search returns *)

(** A query of the configured dimension passes the dimension test and
    reaches the end of the function: the call returns [None] and changes
    nothing. *)
Lemma search_embeddings_falls_through query_vector top_k w q :
  _HAS_NUMPY (runtime w) = true ->
  as_2d query_vector = Some q ->
  ncols q = embedding_dim (self w) ->
  search_embeddings query_vector top_k w = (Returns PyNone, w).
Proof.
  intros Hnp Hq Hdim. unfold search_embeddings. monad_unfold.
  rewrite Hnp, Hq. simpl. rewrite Hdim, Z.eqb_refl. reflexivity.
Qed.

(** A search never changes the world. *)
Lemma search_embeddings_reads_only query_vector top_k w :
  snd (search_embeddings query_vector top_k w) = w.
Proof.
  unfold search_embeddings. monad_unfold.
  destruct (_HAS_NUMPY (runtime w)); simpl; [| reflexivity].
  destruct (as_2d query_vector); simpl; [| reflexivity].
  destruct (ncols n =? embedding_dim (self w)); reflexivity.
Qed.

End Queries.

(** ** Searching, and the dimension test *)

Section SearchClaims.
Context {F : Type}.
Implicit Types w : World F.

(** C1 (as the code has it).  For every store, id, vector [v] of the
    configured dimension and metadata: when [add_embedding(id, v, m)]
    returns, an immediate [search_embeddings] with [v] (given flat or as
    [[v]]) and [top_k=1] returns [None] and leaves the store as it is.  No
    list is returned, so no entry carries the id or the score <v, v>. *)
Theorem search_after_add_returns_None w emb_id (v : list F) metadata :
  _HAS_NUMPY (runtime w) = true ->
  Z.of_nat (length v) = embedding_dim (self w) ->
  fst (add_embedding emb_id (Flat v) metadata w) = Returns tt ->
  let w' := snd (add_embedding emb_id (Flat v) metadata w) in
  search_embeddings (Nested [v]) 1 w' = (Returns PyNone, w') /\
  search_embeddings (Flat v) 1 w' = (Returns PyNone, w') /\
  forall hits, fst (search_embeddings (Nested [v]) 1 w')
               <> Returns (PyList hits).
Proof.
  intros Hnp Hlen _ w'.
  destruct (add_embedding_same_setup emb_id (Flat v) metadata w)
    as (Hrt & Hdim & _).
  fold w' in Hrt, Hdim.
  assert (H2 : search_embeddings (Nested [v]) 1 w' = (Returns PyNone, w')).
  { eapply search_embeddings_falls_through.
    - rewrite Hrt. exact Hnp.
    - reflexivity.
    - simpl. rewrite Hdim. exact Hlen. }
  split; [exact H2 | split].
  - eapply search_embeddings_falls_through.
    + rewrite Hrt. exact Hnp.
    + reflexivity.
    + simpl. rewrite Hdim. exact Hlen.
  - intros hits. rewrite H2. simpl. discriminate.
Qed.

(** C2 (as the code has it).  Replay one history of add/delete calls on a
    store built with the FAISS index and on a store built with the numpy
    matrix, both of dimension [dim]: for every query of that dimension,
    [search_embeddings] returns [None] on both.  Neither backend returns a
    list of ids, so there is no rank order to compare. *)
Theorem search_after_replay_returns_None_on_both_backends
    rt (dr1 dr2 : Directory F) table dim history query_vector top_k q :
  _HAS_NUMPY rt = true ->
  as_2d query_vector = Some q ->
  ncols q = dim ->
  let indexed := replay history (snd (start rt dr1 table dim true)) in
  let brute := replay history (snd (start rt dr2 table dim false)) in
  search_embeddings query_vector top_k indexed = (Returns PyNone, indexed) /\
  search_embeddings query_vector top_k brute = (Returns PyNone, brute).
Proof.
  intros Hnp Hq Hdim indexed brute.
  split; eapply search_embeddings_falls_through; try exact Hq.
  - destruct (replay_same_setup history (snd (start rt dr1 table dim true)))
      as (Hrt & _).
    unfold indexed. rewrite Hrt.
    destruct (start_same_dimension rt dr1 table dim true) as (-> & _).
    exact Hnp.
  - destruct (replay_same_setup history (snd (start rt dr1 table dim true)))
      as (_ & Hd & _).
    unfold indexed. rewrite Hd.
    destruct (start_same_dimension rt dr1 table dim true) as (_ & -> & _).
    exact Hdim.
  - destruct (replay_same_setup history (snd (start rt dr2 table dim false)))
      as (Hrt & _).
    unfold brute. rewrite Hrt.
    destruct (start_same_dimension rt dr2 table dim false) as (-> & _).
    exact Hnp.
  - destruct (replay_same_setup history (snd (start rt dr2 table dim false)))
      as (_ & Hd & _).
    unfold brute. rewrite Hd.
    destruct (start_same_dimension rt dr2 table dim false) as (_ & -> & _).
    exact Hdim.
Qed.

(** C3 (as the code has it).  On a store just built on a directory with no
    files, with either backend, no id is known; and on that store, as after
    any history of adds and deletes (so whatever the number of vectors
    held), [search_embeddings] with a query of the configured dimension and
    any [top_k] returns [None]: a normal return, but never a list, empty or
    shorter than [top_k]. *)
Theorem search_on_new_store_returns_None
    rt dim faiss_installed history query_vector top_k q :
  _HAS_NUMPY rt = true ->
  as_2d query_vector = Some q ->
  ncols q = dim ->
  let new : World F := snd (start rt no_files [] dim faiss_installed) in
  let w := replay history new in
  list_embedding_ids (self new) = [] /\
  search_embeddings query_vector top_k new = (Returns PyNone, new) /\
  search_embeddings query_vector top_k w = (Returns PyNone, w) /\
  forall hits, fst (search_embeddings query_vector top_k w)
               <> Returns (PyList hits).
Proof.
  intros Hnp Hq Hdim new w.
  assert (Hnew : search_embeddings query_vector top_k new
                 = (Returns PyNone, new)).
  { eapply search_embeddings_falls_through; try exact Hq.
    - unfold new. destruct faiss_installed; exact Hnp.
    - unfold new. destruct faiss_installed; exact Hdim. }
  assert (Hs : search_embeddings query_vector top_k w = (Returns PyNone, w)).
  { destruct (replay_same_setup history new) as (Hrt & Hd & _).
    fold w in Hrt, Hd.
    eapply search_embeddings_falls_through; try exact Hq.
    - rewrite Hrt. unfold new. destruct faiss_installed; exact Hnp.
    - rewrite Hd. unfold new. destruct faiss_installed; exact Hdim. }
  split; [| split; [exact Hnew | split; [exact Hs |]]].
  - unfold new. destruct faiss_installed; reflexivity.
  - intros hits. rewrite Hs. simpl. discriminate.
Qed.

(** C4.  For every vector whose length differs from the configured
    [embedding_dim], [add_embedding] and [search_embeddings] raise the
    dimension-mismatch [ValueError], and the failed call leaves the whole
    world, hence the list of known ids and its length, as it was. *)
Theorem dimension_mismatch_raises_and_changes_nothing
    w emb_id (v : list F) metadata top_k :
  _HAS_NUMPY (runtime w) = true ->
  Z.of_nat (length v) <> embedding_dim (self w) ->
  add_embedding emb_id (Flat v) metadata w = (Raises ValueError, w) /\
  search_embeddings (Flat v) top_k w = (Raises ValueError, w) /\
  list_embedding_ids (self (snd (add_embedding emb_id (Flat v) metadata w)))
    = list_embedding_ids (self w) /\
  list_embedding_ids (self (snd (search_embeddings (Flat v) top_k w)))
    = list_embedding_ids (self w).
Proof.
  intros Hnp Hlen.
  assert (Ha : add_embedding emb_id (Flat v) metadata w
               = (Raises ValueError, w)).
  { unfold add_embedding. monad_unfold. rewrite Hnp. simpl.
    apply Z.eqb_neq in Hlen. rewrite Hlen. reflexivity. }
  assert (Hs : search_embeddings (Flat v) top_k w = (Raises ValueError, w)).
  { unfold search_embeddings. monad_unfold. rewrite Hnp. simpl.
    apply Z.eqb_neq in Hlen. rewrite Hlen. reflexivity. }
  rewrite Ha, Hs. repeat split.
Qed.

End SearchClaims.

Lemma search_after_add_returns_None_witness :
  let w' := snd (add_embedding "a" (Flat e1) None brute_force_store) in
  _HAS_NUMPY (runtime brute_force_store) = true /\
  Z.of_nat (length e1) = embedding_dim (self brute_force_store) /\
  fst (add_embedding "a" (Flat e1) None brute_force_store) = Returns tt /\
  list_embedding_ids (self w') = ["a"] /\
  search_embeddings (Nested [e1]) 1 w' = (Returns PyNone, w') /\
  search_embeddings (Flat e1) 1 w' = (Returns PyNone, w') /\
  forall hits, fst (search_embeddings (Nested [e1]) 1 w')
               <> Returns (PyList hits).
Proof.
  do 4 (split; [reflexivity |]).
  apply (search_after_add_returns_None brute_force_store "a" e1 None);
    reflexivity.
Defined.

Lemma search_after_replay_returns_None_on_both_backends_witness :
  let q := {| ncols := 4; rows := [e1] |} in
  let indexed := replay a_b_without_a indexed_store in
  let brute := replay a_b_without_a brute_force_store in
  _HAS_NUMPY with_numpy = true /\
  as_2d (Flat e1) = Some q /\
  ncols q = 4 /\
  list_embedding_ids (self indexed) = ["b"] /\
  list_embedding_ids (self brute) = ["b"] /\
  search_embeddings (Flat e1) 2 indexed = (Returns PyNone, indexed) /\
  search_embeddings (Flat e1) 2 brute = (Returns PyNone, brute).
Proof.
  do 5 (split; [reflexivity |]).
  apply (search_after_replay_returns_None_on_both_backends
           with_numpy no_files no_files [] 4 a_b_without_a
           (Flat e1) 2 {| ncols := 4; rows := [e1] |});
    reflexivity.
Defined.

Lemma search_on_new_store_returns_None_witness :
  let q := {| ncols := 4; rows := [e1] |} in
  let w := replay [Add "a" (Flat e1) None] brute_force_store in
  _HAS_NUMPY with_numpy = true /\
  as_2d (Flat e1) = Some q /\
  ncols q = 4 /\
  list_embedding_ids (self brute_force_store) = [] /\
  search_embeddings (Flat e1) 5 brute_force_store
    = (Returns PyNone, brute_force_store) /\
  search_embeddings (Flat e1) 5 w = (Returns PyNone, w) /\
  forall hits, fst (search_embeddings (Flat e1) 5 w) <> Returns (PyList hits).
Proof.
  do 3 (split; [reflexivity |]).
  apply (search_on_new_store_returns_None
           with_numpy 4 false [Add "a" (Flat e1) None]
           (Flat e1) 5 {| ncols := 4; rows := [e1] |});
    reflexivity.
Defined.

Lemma dimension_mismatch_raises_and_changes_nothing_witness :
  _HAS_NUMPY (runtime brute_force_store) = true /\
  Z.of_nat (length [1; 0; 0]) <> embedding_dim (self brute_force_store) /\
  add_embedding "a" (Flat [1; 0; 0]) None brute_force_store
    = (Raises ValueError, brute_force_store) /\
  search_embeddings (Flat [1; 0; 0]) 1 brute_force_store
    = (Raises ValueError, brute_force_store) /\
  list_embedding_ids
    (self (snd (add_embedding "a" (Flat [1; 0; 0]) None brute_force_store)))
    = list_embedding_ids (self brute_force_store) /\
  list_embedding_ids
    (self (snd (search_embeddings (Flat [1; 0; 0]) 1 brute_force_store)))
    = list_embedding_ids (self brute_force_store).
Proof.
  assert (Hlen : Z.of_nat (length [1; 0; 0])
                 <> embedding_dim (self brute_force_store))
    by (simpl; lia).
  split; [reflexivity | split; [exact Hlen |]].
  apply (dimension_mismatch_raises_and_changes_nothing
           brute_force_store "a" [1; 0; 0] None 1 eq_refl Hlen).
Defined.

(** ** The task queue and the metadata file *)

(** [d.get(k)] finds the first binding of [k], and nothing where [k] is
    not bound. *)
Lemma dict_get_first_binding (before after : list (string * json)) k v :
  ~ In k (map fst before) ->
  Dict.get String.eqb (before ++ (k, v) :: after)%list k = Some v.
Proof.
  induction before as [| [k' v'] rest IH]; simpl.
  - intros _. rewrite String.eqb_refl. reflexivity.
  - intros H. destruct (String.eqb_spec k' k); [tauto |]. apply IH. tauto.
Qed.

Lemma dict_get_unbound (d : list (string * json)) k :
  ~ In k (map fst d) -> Dict.get String.eqb d k = None.
Proof.
  induction d as [| [k' v'] rest IH]; simpl; [reflexivity |].
  intros H. destruct (String.eqb_spec k' k); [tauto |]. apply IH. tauto.
Qed.

Section QueueAndMetadataClaims.
Context {F : Type}.
Implicit Types w : World F.

Lemma fetch_update_where_id id res (table : list task) :
  find (fun t => String.eqb (task_id t) id) (update_where_id id res table)
  = match find (fun t => String.eqb (task_id t) id) table with
    | Some t => Some {| task_id := task_id t; command := command t;
                        task_status := done; result := Some res |}
    | None => None
    end.
Proof.
  induction table as [| t rest IH]; simpl; [reflexivity |].
  destruct (String.eqb (task_id t) id) eqn:E; simpl; rewrite E.
  - reflexivity.
  - exact IH.
Qed.

Lemma update_where_id_absent id res (table : list task) :
  find (fun t => String.eqb (task_id t) id) table = None ->
  update_where_id id res table = table.
Proof.
  induction table as [| t rest IH]; simpl; [reflexivity |].
  destruct (String.eqb (task_id t) id); [discriminate |].
  intros H. rewrite (IH H). reflexivity.
Qed.

Lemma store_result_run id res w :
  store_result id res w
  = (Returns tt,
     with_tasks (update_where_id id res)
       (if _conn (self w) then w else with_self (set_conn true) w)).
Proof.
  unfold store_result, _ensure_conn. monad_unfold.
  destruct (_conn (self w)); reflexivity.
Qed.

(** C6 (amended).  [store_result] never fails: there is no NotFound.  For
    an id that no task has, it returns normally and leaves the table as it
    was.  For an id some task has, a fetch of that task afterwards shows
    the same id and command, status [done], and exactly the result string
    that was passed. *)
Theorem store_result_updates_known_ids_and_ignores_unknown id res w :
  let w' := snd (store_result id res w) in
  fst (store_result id res w) = Returns tt /\
  match fetch id w with
  | None => tasks w' = tasks w /\ fetch id w' = None
  | Some t =>
      fetch id w' = Some {| task_id := task_id t; command := command t;
                            task_status := done; result := Some res |}
  end.
Proof.
  rewrite store_result_run. cbv zeta. split; [reflexivity |].
  unfold fetch.
  assert (Ht : forall g, tasks (with_tasks g
             (if _conn (self w) then w else with_self (set_conn true) w))
             = g (tasks w)).
  { intros g. destruct (_conn (self w)); reflexivity. }
  simpl snd. rewrite Ht, fetch_update_where_id.
  destruct (find (fun t => String.eqb (task_id t) id) (tasks w)) eqn:E.
  - reflexivity.
  - split; [apply update_where_id_absent; exact E | reflexivity].
Qed.

(** C10.  [get_metadata] never raises and changes nothing.  When
    metadata.json exists and parses to a dict, it returns the value the
    dict binds to the id (the first binding, where the list of fields has
    more than one) and [{}] when the dict does not bind the id; in every
    other case (file missing, unreadable or unparseable, not a dict) it
    returns [{}]. *)
Theorem get_metadata_is_total emb_id w :
  exists md,
    get_metadata emb_id w = (Returns md, w) /\
    match metadata_json (dir w) with
    | Holds (JObj fields) =>
        (forall before v after,
           fields = (before ++ (emb_id, v) :: after)%list ->
           ~ In emb_id (map fst before) ->
           md = v) /\
        (~ In emb_id (map fst fields) -> md = empty_dict)
    | _ => md = empty_dict
    end.
Proof.
  unfold get_metadata. monad_unfold.
  destruct (metadata_json (dir w)) as [| | [ | | | | | fields]] eqn:E;
    simpl; rewrite ?E; simpl;
    try (eexists; split; [reflexivity | reflexivity]).
  eexists. split; [reflexivity |]. split.
  - intros before v after -> Hfirst.
    rewrite dict_get_first_binding by exact Hfirst. reflexivity.
  - intros Hunbound. rewrite dict_get_unbound by exact Hunbound.
    reflexivity.
Qed.

End QueueAndMetadataClaims.

Lemma get_metadata_is_total_witness :
  metadata_json (dir noted_store)
  = Holds (JObj [("a", note_a); ("b", note_b)]) /\
  get_metadata "b" noted_store = (Returns note_b, noted_store) /\
  get_metadata "c" noted_store = (Returns empty_dict, noted_store) /\
  get_metadata "b" brute_force_store = (Returns empty_dict, brute_force_store).
Proof.
  assert (Hfile : metadata_json (dir noted_store)
                  = Holds (JObj [("a", note_a); ("b", note_b)]))
    by reflexivity.
  split; [exact Hfile |].
  destruct (get_metadata_is_total "b" noted_store) as (md & Hrun & Hb).
  destruct (get_metadata_is_total "c" noted_store) as (md' & Hrun' & Hc).
  destruct (get_metadata_is_total "b" brute_force_store)
    as (md'' & Hrun'' & Hnone).
  rewrite Hfile in Hb, Hc. destruct Hb as [Hbound _]. destruct Hc as [_ Hc].
  rewrite Hrun, Hrun', Hrun''.
  rewrite (Hbound [("a", note_a)] note_b [] eq_refl)
    by (simpl; intuition discriminate).
  rewrite Hc by (simpl; intuition discriminate).
  change (md'' = empty_dict) in Hnone. rewrite Hnone.
  split; [reflexivity | split; reflexivity].
Defined.

(** C6 (as stated) fails: completing a task id that does not exist returns
    normally instead of failing with NotFound. *)
Lemma store_result_on_unknown_id_returns :
  fetch "t9" brute_force_store = None /\
  store_result "t9" "{}" brute_force_store
  = (Returns tt, with_self (set_conn true) brute_force_store).
Proof. split; reflexivity. Qed.

Example store_result_then_fetch :
  let w := snd (add_task "t1" "echo hello" brute_force_store) in
  fetch "t1" (snd (store_result "t1" "exit 0: hello" w))
  = Some {| task_id := "t1"; command := "echo hello"; task_status := done;
            result := Some "exit 0: hello" |}.
Proof. reflexivity. Qed.

(** ** Best-effort persistence *)

Section BestEffort.
Context {F : Type}.
Implicit Types w : World F.

Lemma blind_ret A (a : A) : disk_blind (F:=F) (ret a).
Proof. intros w1 w2 H. split; [reflexivity | exact H]. Qed.

Lemma blind_raise A e : disk_blind (@raise F A e).
Proof. intros w1 w2 H. split; [reflexivity | exact H]. Qed.

Lemma blind_or_raise A (o : option A) e : disk_blind (F:=F) (or_raise o e).
Proof. destruct o; [apply blind_ret | apply blind_raise]. Qed.

Lemma blind_read A (f : World F -> A) :
  (forall w1 w2, same_object w1 w2 -> f w1 = f w2) -> disk_blind (read f).
Proof.
  intros Hf w1 w2 H. split; [| exact H].
  simpl. rewrite (Hf w1 w2 H). reflexivity.
Qed.

Lemma blind_attr A (f : Memory F -> A) : disk_blind (attr f).
Proof.
  apply blind_read. intros w1 w2 [_ H]. rewrite H. reflexivity.
Qed.

Lemma blind_assign (f : Memory F -> Memory F) : disk_blind (assign f).
Proof.
  intros w1 w2 [Hrt Hself]. split; [reflexivity |].
  split; simpl; [exact Hrt | rewrite Hself; reflexivity].
Qed.

Lemma blind_bind A B (c : M F A) (k : A -> M F B) :
  disk_blind c -> (forall a, disk_blind (k a)) -> disk_blind (bind c k).
Proof.
  intros Hc Hk w1 w2 H. unfold bind.
  destruct (Hc w1 w2 H) as [Ho Hw].
  destruct (c w1) as [o1 w1'], (c w2) as [o2 w2']; simpl in *. subst o2.
  destruct o1 as [a | e].
  - apply Hk. exact Hw.
  - split; [reflexivity | exact Hw].
Qed.

Lemma blind_try A (c h : M F A) :
  disk_blind c -> disk_blind h -> disk_blind (try_except c h).
Proof.
  intros Hc Hh w1 w2 H. unfold try_except.
  destruct (Hc w1 w2 H) as [Ho Hw].
  destruct (c w1) as [o1 w1'], (c w2) as [o2 w2']; simpl in *. subst o2.
  destruct o1 as [a | e].
  - split; [reflexivity | exact Hw].
  - apply Hh. exact Hw.
Qed.

Lemma blind_when b (c : M F unit) : disk_blind c -> disk_blind (when b c).
Proof. intros Hc. destruct b; simpl; [exact Hc | apply blind_ret]. Qed.

(** A step that always returns and touches the directory only. *)
Lemma blind_quiet (c : M F unit) :
  (forall w, fst (c w) = Returns tt) -> keeps same_memory c ->
  disk_blind c.
Proof.
  intros Hret Hkeep w1 w2 [Hrt Hself].
  rewrite (Hret w1), (Hret w2). split; [reflexivity |].
  destruct (Hkeep w1) as (R1 & S1 & _), (Hkeep w2) as (R2 & S2 & _).
  split; congruence.
Qed.

Lemma blind_persist : disk_blind (F:=F) _persist_index_async.
Proof.
  apply blind_quiet.
  - apply _persist_index_async_returns.
  - apply _persist_index_async_same_memory.
Qed.

Lemma blind_merge_metadata emb_id md :
  disk_blind (F:=F) (merge_metadata emb_id md).
Proof.
  apply blind_quiet.
  - apply merge_metadata_returns.
  - apply merge_metadata_same_memory.
Qed.

Ltac blind :=
  repeat match goal with
  | |- disk_blind (bind _ _) => apply blind_bind; [| intro]
  | |- disk_blind (try_except _ _) => apply blind_try
  | |- disk_blind (when _ _) => apply blind_when
  | |- disk_blind (ret _) => apply blind_ret
  | |- disk_blind (raise _) => apply blind_raise
  | |- disk_blind (attr _) => apply blind_attr
  | |- disk_blind (assign _) => apply blind_assign
  | |- disk_blind (or_raise _ _) => apply blind_or_raise
  | |- disk_blind (read _) =>
      apply blind_read; intros ? ? [-> _]; reflexivity
  | |- disk_blind _persist_index_async => apply blind_persist
  | |- disk_blind (merge_metadata _ _) => apply blind_merge_metadata
  | |- disk_blind (if ?b then _ else _) => destruct b
  | |- disk_blind (match ?x with _ => _ end) => destruct x
  end.

Lemma add_embedding_disk_blind emb_id vector metadata :
  disk_blind (F:=F) (add_embedding emb_id vector metadata).
Proof. unfold add_embedding. blind. Qed.

Lemma delete_embedding_disk_blind emb_id :
  disk_blind (F:=F) (delete_embedding emb_id).
Proof. unfold delete_embedding, delete_numpy_fallback. blind. Qed.

(** C5 (amended).  Persisting the snapshot is best-effort.  [_save_index]
    never raises; and for two worlds that agree on the object but differ in
    their files and in whether their writes succeed, [add_embedding] and
    [delete_embedding] end the same way and leave the same object.  A
    snapshot that could not be written is not surfaced to the caller. *)
Theorem snapshot_write_failures_are_swallowed
    (w1 w2 : World F) emb_id vector metadata :
  runtime w1 = runtime w2 ->
  self w1 = self w2 ->
  fst (_save_index w1) = Returns tt /\
  fst (add_embedding emb_id vector metadata w1)
    = fst (add_embedding emb_id vector metadata w2) /\
  self (snd (add_embedding emb_id vector metadata w1))
    = self (snd (add_embedding emb_id vector metadata w2)) /\
  fst (delete_embedding emb_id w1) = fst (delete_embedding emb_id w2) /\
  self (snd (delete_embedding emb_id w1))
    = self (snd (delete_embedding emb_id w2)).
Proof.
  intros Hrt Hself.
  destruct (add_embedding_disk_blind emb_id vector metadata w1 w2
              (conj Hrt Hself)) as (Ha & _ & Ha').
  destruct (delete_embedding_disk_blind emb_id w1 w2 (conj Hrt Hself))
    as (Hd & _ & Hd').
  split; [apply _save_index_returns |].
  repeat split; assumption.
Qed.

End BestEffort.

(** C5 (as stated) fails: both snapshot writes of this [add_embedding] are
    refused, nothing reaches the directory, and the call still returns
    normally with the id recorded in memory. *)
Lemma add_embedding_returns_though_no_write_landed :
  let run := add_embedding "a" (Flat e1) None refusing_store in
  fst run = Returns tt /\
  list_embedding_ids (self (snd run)) = ["a"] /\
  embeddings_npy (dir (snd run)) = Absent /\
  emb_ids_json (dir (snd run)) = Absent.
Proof. repeat split. Qed.

Lemma snapshot_write_failures_are_swallowed_witness :
  runtime refusing_store = runtime brute_force_store /\
  self refusing_store = self brute_force_store /\
  fst (_save_index refusing_store) = Returns tt /\
  fst (add_embedding "a" (Flat e1) None refusing_store)
    = fst (add_embedding "a" (Flat e1) None brute_force_store) /\
  self (snd (add_embedding "a" (Flat e1) None refusing_store))
    = self (snd (add_embedding "a" (Flat e1) None brute_force_store)) /\
  fst (delete_embedding "a" refusing_store)
    = fst (delete_embedding "a" brute_force_store) /\
  self (snd (delete_embedding "a" refusing_store))
    = self (snd (delete_embedding "a" brute_force_store)).
Proof.
  split; [reflexivity | split; [reflexivity |]].
  apply (snapshot_write_failures_are_swallowed
           refusing_store brute_force_store "a" (Flat e1) None);
    reflexivity.
Defined.

(** ** Lists of ids *)

Lemma In_remove_first x y l : In y (remove_first x l) -> In y l.
Proof.
  induction l as [| z rest IH]; simpl; [tauto |].
  destruct (String.eqb z x); simpl; intuition.
Qed.

Lemma NoDup_remove_first x l : NoDup l -> NoDup (remove_first x l).
Proof.
  induction 1 as [| z rest Hz Hnd IH]; simpl; [constructor |].
  destruct (String.eqb z x); [exact Hnd |].
  constructor; [| exact IH].
  intros Hin. apply Hz. eapply In_remove_first. exact Hin.
Qed.

Lemma remove_first_absent x l : ~ In x l -> remove_first x l = l.
Proof.
  induction l as [| z rest IH]; simpl; [reflexivity |].
  intros H. destruct (String.eqb_spec z x) as [-> | Hne].
  - exfalso. apply H. left. reflexivity.
  - rewrite IH; [reflexivity | tauto].
Qed.

Lemma remove_first_single x l :
  count_occ string_dec l x = 1%nat -> ~ In x (remove_first x l).
Proof.
  induction l as [| z rest IH]; simpl; [tauto |].
  destruct (string_dec z x) as [-> | Hne].
  - rewrite String.eqb_refl. intros H. injection H as H.
    apply (count_occ_not_In string_dec). exact H.
  - destruct (String.eqb_spec z x) as [E | _]; [contradiction |].
    intros H [E | Hin]; [contradiction | exact (IH H Hin)].
Qed.

Lemma index_of_absent x l : ~ In x l -> index_of x l = None.
Proof.
  induction l as [| z rest IH]; simpl; [reflexivity |].
  intros H. destruct (String.eqb_spec z x) as [-> | Hne].
  - exfalso. apply H. left. reflexivity.
  - rewrite IH; [reflexivity | tauto].
Qed.

Lemma index_of_present x l :
  In x l ->
  exists idx, index_of x l = Some idx /\ (idx < length l)%nat /\
              drop_at idx l = remove_first x l.
Proof.
  induction l as [| z rest IH]; simpl; [tauto |].
  intros H. destruct (String.eqb_spec z x) as [-> | Hne].
  - exists O. repeat split. lia.
  - destruct IH as (idx & -> & Hlt & Hdrop); [destruct H; tauto |].
    exists (S idx). simpl. rewrite Hdrop. repeat split. lia.
Qed.

Lemma index_of_found x l idx :
  index_of x l = Some idx ->
  (idx < length l)%nat /\ drop_at idx l = remove_first x l.
Proof.
  revert idx. induction l as [| z rest IH]; simpl; [discriminate |].
  intros idx. destruct (String.eqb z x).
  - intros [= <-]. split; [lia | reflexivity].
  - destruct (index_of x rest) as [i |]; [| discriminate].
    intros [= <-]. destruct (IH i eq_refl) as [Hlt Hdrop].
    simpl. rewrite Hdrop. split; [lia | reflexivity].
Qed.

Lemma length_drop_at {A} idx (l : list A) :
  (idx < length l)%nat -> length (drop_at idx l) = pred (length l).
Proof.
  revert idx. induction l as [| z rest IH]; simpl; intros idx H; [lia |].
  destruct idx as [| i]; [reflexivity |].
  simpl. rewrite IH by lia. lia.
Qed.

(** ** The id mapping *)

Lemma find_key_absent t id : ~ In id (Dict.values t) -> find_key t id = None.
Proof.
  induction t as [| [k v] rest IH]; simpl; [reflexivity |].
  intros H. destruct (String.eqb_spec v id) as [-> | Hne].
  - exfalso. apply H. left. reflexivity.
  - apply IH. tauto.
Qed.

Lemma find_key_in_keys t id k : find_key t id = Some k -> In k (map fst t).
Proof.
  induction t as [| [k' v] rest IH]; simpl; [discriminate |].
  destruct (String.eqb v id).
  - intros [= ->]. left. reflexivity.
  - intros H. right. apply IH. exact H.
Qed.

Lemma find_key_none_absent t id :
  find_key t id = None -> ~ In id (Dict.values t).
Proof.
  induction t as [| [k v] rest IH]; simpl; [tauto |].
  destruct (String.eqb_spec v id) as [-> | Hne]; [discriminate |].
  intros H [E | Hin]; [contradiction | exact (IH H Hin)].
Qed.

Lemma values_pop_found t id k :
  NoDup (map fst t) -> find_key t id = Some k ->
  Dict.values (Dict.pop Z.eqb t k) = remove_first id (Dict.values t).
Proof.
  induction t as [| [k' v] rest IH]; simpl; [discriminate |].
  intros Hnd. inversion Hnd as [| ? ? Hk' Hrest]; subst.
  destruct (String.eqb v id).
  - intros [= ->]. rewrite Z.eqb_refl. reflexivity.
  - intros Hfind.
    destruct (Z.eqb_spec k' k) as [-> | Hne].
    + exfalso. apply Hk'. eapply find_key_in_keys. exact Hfind.
    + simpl. f_equal. apply IH; assumption.
Qed.

Lemma pop_keys_subset (t : list (Z * string)) k x :
  In x (map fst (Dict.pop Z.eqb t k)) -> In x (map fst t).
Proof.
  induction t as [| [k' v] rest IH]; simpl; [tauto |].
  destruct (k' =? k); simpl; intuition.
Qed.

Lemma NoDup_pop_keys (t : list (Z * string)) k :
  NoDup (map fst t) -> NoDup (map fst (Dict.pop Z.eqb t k)).
Proof.
  induction t as [| [k' v] rest IH]; simpl; [constructor |].
  intros Hnd. inversion Hnd as [| ? ? Hk' Hrest]; subst.
  destruct (k' =? k); [exact Hrest |].
  simpl. constructor; [| apply IH; exact Hrest].
  intros Hin. apply Hk'. eapply pop_keys_subset. exact Hin.
Qed.

Lemma set_keys (t : list (Z * string)) k v x :
  In x (map fst (Dict.set Z.eqb t k v)) -> x = k \/ In x (map fst t).
Proof.
  induction t as [| [k' v'] rest IH]; simpl; [intuition |].
  destruct (k' =? k); simpl; intuition.
Qed.

Lemma NoDup_set_keys (t : list (Z * string)) k v :
  NoDup (map fst t) -> NoDup (map fst (Dict.set Z.eqb t k v)).
Proof.
  induction t as [| [k' v'] rest IH]; simpl.
  - intros _. constructor; [simpl; tauto | constructor].
  - intros Hnd. inversion Hnd as [| ? ? Hk' Hrest]; subst.
    destruct (Z.eqb_spec k' k) as [-> | Hne]; simpl.
    + constructor; assumption.
    + constructor; [| apply IH; exact Hrest].
      intros Hin. apply set_keys in Hin. destruct Hin; [congruence | tauto].
Qed.

Lemma values_pop_subset (t : list (Z * string)) k x :
  In x (Dict.values (Dict.pop Z.eqb t k)) -> In x (Dict.values t).
Proof.
  induction t as [| [k' v] rest IH]; simpl; [tauto |].
  destruct (k' =? k); simpl; intuition.
Qed.

Lemma NoDup_values_pop (t : list (Z * string)) k :
  NoDup (Dict.values t) -> NoDup (Dict.values (Dict.pop Z.eqb t k)).
Proof.
  induction t as [| [k' v] rest IH]; simpl; [constructor |].
  intros Hnd. inversion Hnd as [| ? ? Hv Hrest]; subst.
  destruct (k' =? k); [exact Hrest |].
  simpl. constructor; [| apply IH; exact Hrest].
  intros Hin. apply Hv. eapply values_pop_subset. exact Hin.
Qed.

Lemma values_set_members (t : list (Z * string)) k v x :
  In x (Dict.values (Dict.set Z.eqb t k v)) -> x = v \/ In x (Dict.values t).
Proof.
  induction t as [| [k' v'] rest IH]; simpl; [intuition |].
  destruct (k' =? k); simpl; intuition.
Qed.

Lemma NoDup_values_set (t : list (Z * string)) k v :
  NoDup (Dict.values t) -> ~ In v (Dict.values t) ->
  NoDup (Dict.values (Dict.set Z.eqb t k v)).
Proof.
  induction t as [| [k' v'] rest IH]; simpl.
  - intros _ _. constructor; [simpl; tauto | constructor].
  - intros Hnd Hv. inversion Hnd as [| ? ? Hv' Hrest]; subst.
    destruct (k' =? k); simpl.
    + constructor; [tauto | exact Hrest].
    + constructor; [| apply IH; tauto].
      intros Hin. apply values_set_members in Hin.
      destruct Hin as [-> | Hin]; tauto.
Qed.

Lemma drop_at_subset {A} idx (l : list A) x : In x (drop_at idx l) -> In x l.
Proof.
  revert idx. induction l as [| z rest IH]; intros [| i]; simpl; try tauto.
  intros [E | Hin]; [left; exact E | right; eapply IH; exact Hin].
Qed.

Lemma NoDup_drop_at {A} idx (l : list A) : NoDup l -> NoDup (drop_at idx l).
Proof.
  intros Hnd. revert idx.
  induction Hnd as [| z rest Hz Hrest IH]; intros [| i]; simpl;
    try constructor; try assumption.
  - intros Hin. apply Hz. eapply drop_at_subset. exact Hin.
  - apply IH.
Qed.

Lemma NoDup_snoc (l : list string) x :
  NoDup l -> ~ In x l -> NoDup (l ++ [x]).
Proof.
  induction 1 as [| z rest Hz Hrest IH]; simpl; intros Hx.
  - constructor; [simpl; tauto | constructor].
  - constructor.
    + rewrite in_app_iff. simpl. intros [H | [H | []]]; [tauto |].
      apply Hx. left. symmetry. exact H.
    + apply IH. tauto.
Qed.

(** Replaces a call of [_persist_index_async] by what is known of it: it
    returns, and the world it leaves has the same object. *)
Ltac persist_step :=
  match goal with
  | |- context [_persist_index_async ?x] =>
      let Hret := fresh "Hret" in
      let Hmem := fresh "Hmem" in
      let o := fresh "o" in
      let wx := fresh "wx" in
      pose proof (_persist_index_async_returns x) as Hret;
      pose proof (_persist_index_async_same_memory x) as Hmem;
      destruct (_persist_index_async x) as [o wx];
      unfold same_memory in Hmem; simpl in Hret, Hmem; subst o;
      destruct Hmem as (?Hrt & ?Hself & ?Htasks)
  end.

(** The same for the metadata merge that closes [add_embedding]. *)
Ltac merge_step :=
  match goal with
  | |- context [merge_metadata ?a ?b ?x] =>
      let Hret := fresh "Hret" in
      let Hmem := fresh "Hmem" in
      let o := fresh "o" in
      let wx := fresh "wx" in
      pose proof (merge_metadata_returns a b x) as Hret;
      pose proof (merge_metadata_same_memory a b x) as Hmem;
      destruct (merge_metadata a b x) as [o wx];
      unfold same_memory in Hmem; simpl in Hret, Hmem; subst o;
      destruct Hmem as (?Hrt & ?Hself & ?Htasks)
  end.

(** ** Deleting and adding ids *)

Section Identifiers.
Context {F : Type}.
Implicit Types w : World F.

Lemma delete_embedding_absent emb_id w :
  coherent w ->
  ~ In emb_id (list_embedding_ids (self w)) ->
  delete_embedding emb_id w = (Returns false, w).
Proof.
  intros [_ Hco].
  unfold list_embedding_ids, delete_embedding, delete_numpy_fallback.
  monad_unfold.
  destruct (_use_faiss (self w)) eqn:Huse.
  - destruct Hco as (Hids & _ & _). intros Hin.
    destruct (_faiss_index (self w)) as [index |]; simpl.
    + rewrite (find_key_absent _ _ Hin). reflexivity.
    + rewrite Hids. reflexivity.
  - intros Hin.
    destruct (_faiss_index (self w)); simpl;
      rewrite (index_of_absent _ _ Hin); reflexivity.
Qed.

Lemma delete_embedding_present emb_id w :
  coherent w ->
  In emb_id (list_embedding_ids (self w)) ->
  let w' := snd (delete_embedding emb_id w) in
  fst (delete_embedding emb_id w) = Returns true /\
  list_embedding_ids (self w')
    = remove_first emb_id (list_embedding_ids (self w)) /\
  coherent w'.
Proof.
  intros [Hfa Hco].
  unfold coherent, list_embedding_ids, delete_embedding,
         delete_numpy_fallback.
  monad_unfold.
  destruct (_use_faiss (self w)) eqn:Huse.
  - destruct Hco as (Hids & Hnd & Hnone). intros Hin.
    destruct (_faiss_index (self w)) as [index |] eqn:Hidx; simpl.
    + destruct (find_key (_intid_to_str (self w)) emb_id) as [k |] eqn:Hk.
      2:{ exfalso. eapply find_key_none_absent; eassumption. }
      destruct (_HAS_NUMPY (runtime w)); simpl;
        [destruct (int64_array k); simpl;
           [destruct (has_remove_ids (runtime w)); simpl | ] | ];
        persist_step; simpl; rewrite Hself; simpl;
        rewrite Huse, Hfa, ?Hidx;
        (split; [reflexivity | split; [apply values_pop_found; assumption |]]);
        rewrite Hids; repeat split;
        try (apply NoDup_pop_keys; assumption); discriminate.
    + rewrite (Hnone eq_refl) in Hin. destruct Hin.
  - intros Hin.
    destruct (index_of_present _ _ Hin) as (idx & Hidx & Hlt & Hdrop).
    destruct (_emb_matrix (self w)) as [a |] eqn:Ha.
    + destruct Hco as [Hnp Hlen].
      assert (Hdel : np_delete a idx
                     = Some {| ncols := ncols a;
                               rows := drop_at idx (rows a) |}).
      { unfold np_delete. rewrite Hlen. apply Nat.ltb_lt in Hlt.
        rewrite Hlt. reflexivity. }
      destruct (_faiss_index (self w)); simpl; rewrite Hidx; simpl;
        rewrite Ha; simpl; rewrite Hnp; simpl; rewrite Hdel; simpl;
        persist_step; simpl; rewrite Hself; simpl;
        rewrite Huse, Hfa, Hrt; simpl;
        (split; [reflexivity | split; [exact Hdrop |]]);
        (split; [reflexivity |]);
        (split; [exact Hnp | rewrite !length_drop_at by lia; lia]).
    + rewrite Hco in Hin. destruct Hin.
Qed.

Lemma add_embedding_coherent emb_id vector metadata w :
  single_vector vector ->
  coherent w -> coherent (snd (add_embedding emb_id vector metadata w)).
Proof.
  intros Hone Hall. unfold add_embedding. monad_unfold.
  destruct (_HAS_NUMPY (runtime w)) eqn:Hnp; simpl; [| exact Hall].
  destruct (as_2d vector) as [vec |] eqn:Hvec; simpl; [| exact Hall].
  specialize (Hone vec Hvec).
  destruct (ncols vec =? embedding_dim (self w)) eqn:Hdim; simpl;
    [| exact Hall].
  destruct Hall as [Hfa Hco].
  rewrite Hfa. destruct (_use_faiss (self w)) eqn:Huse; simpl.
  - destruct Hco as (Hids & Hnd & Hnone).
    destruct (_faiss_index (self w)) as [index |] eqn:Hidx; simpl.
    all: rewrite ?Hidx; simpl.
    all: destruct (int64_array (_next_int_id (self w))); simpl.
    all: try match goal with |- context [add_with_ids ?i ?x ?l] =>
           destruct (add_with_ids i x l); simpl end.
    all: try persist_step; simpl.
    all: destruct metadata; simpl; try merge_step; simpl.
    all: unfold coherent; rewrite ?Hself0, ?Hself; simpl;
         rewrite ?Hfa, ?Huse, ?Hidx.
    all: repeat split; try assumption; try discriminate;
         apply NoDup_set_keys; assumption.
  - destruct (_emb_matrix (self w)) as [a |] eqn:Ha; simpl.
    + destruct Hco as [_ Hlen]. unfold vstack.
      destruct (ncols a =? ncols vec); simpl.
      * persist_step; simpl.
        destruct metadata; simpl; try merge_step; simpl.
        all: unfold coherent; rewrite ?Hself0, ?Hself; simpl;
             rewrite ?Hrt0, ?Hrt, ?Hfa, ?Huse; simpl.
        all: repeat split; try assumption.
        all: rewrite !length_app, Hlen, Hone; reflexivity.
      * unfold coherent. rewrite Hfa, Huse, Ha. repeat split; assumption.
    + persist_step; simpl.
      destruct metadata; simpl; try merge_step; simpl.
      all: unfold coherent; rewrite ?Hself0, ?Hself; simpl;
           rewrite ?Hrt0, ?Hrt, ?Hfa, ?Huse; simpl.
      all: repeat split; try assumption.
      all: rewrite Hco, Hone; reflexivity.
Qed.


Lemma add_embedding_ids_unique emb_id vector metadata w :
  NoDup (list_embedding_ids (self w)) ->
  ~ In emb_id (list_embedding_ids (self w)) ->
  NoDup (list_embedding_ids
           (self (snd (add_embedding emb_id vector metadata w)))).
Proof.
  intros Hnd Hnew. unfold add_embedding. monad_unfold.
  destruct (_HAS_NUMPY (runtime w)) eqn:Hnp; simpl; [| exact Hnd].
  destruct (as_2d vector) as [vec |] eqn:Hvec; simpl; [| exact Hnd].
  destruct (ncols vec =? embedding_dim (self w)) eqn:Hdim; simpl;
    [| exact Hnd].
  unfold list_embedding_ids in *.
  destruct (_use_faiss (self w)) eqn:Huse, (_faiss (self w)) eqn:Hfa; simpl.
  - destruct (_faiss_index (self w)) as [index |] eqn:Hidx; simpl.
    all: rewrite ?Hidx; simpl.
    all: destruct (int64_array (_next_int_id (self w))); simpl.
    all: try match goal with |- context [add_with_ids ?i ?x ?l] =>
           destruct (add_with_ids i x l); simpl end.
    all: try persist_step; simpl.
    all: destruct metadata; simpl; try merge_step; simpl.
    all: rewrite ?Hself0, ?Hself; simpl; rewrite ?Huse.
    all: apply NoDup_values_set; assumption.
  - destruct (_emb_matrix (self w)) as [a |] eqn:Ha; simpl.
    1: destruct (vstack a vec); simpl.
    all: try persist_step; simpl.
    all: destruct metadata; simpl; try merge_step; simpl.
    all: rewrite ?Hself0, ?Hself; simpl; rewrite ?Huse.
    all: assumption.
  - destruct (_emb_matrix (self w)) as [a |] eqn:Ha; simpl.
    1: destruct (vstack a vec); simpl.
    all: try persist_step; simpl.
    all: destruct metadata; simpl; try merge_step; simpl.
    all: rewrite ?Hself0, ?Hself; simpl; rewrite ?Huse.
    all: try assumption.
    all: apply NoDup_snoc; assumption.
  - destruct (_emb_matrix (self w)) as [a |] eqn:Ha; simpl.
    1: destruct (vstack a vec); simpl.
    all: try persist_step; simpl.
    all: destruct metadata; simpl; try merge_step; simpl.
    all: rewrite ?Hself0, ?Hself; simpl; rewrite ?Huse.
    all: try assumption.
    all: apply NoDup_snoc; assumption.
Qed.

Lemma delete_numpy_fallback_ids_unique emb_id w :
  NoDup (list_embedding_ids (self w)) ->
  NoDup (list_embedding_ids (self (snd (delete_numpy_fallback emb_id w)))).
Proof.
  intros Hnd. unfold delete_numpy_fallback. monad_unfold.
  unfold list_embedding_ids in *.
  destruct (index_of emb_id (_emb_ids (self w))) as [idx |]; simpl;
    [| exact Hnd].
  destruct (_emb_matrix (self w)) as [a |]; simpl.
  1: destruct (_HAS_NUMPY (runtime w)); simpl; [| exact Hnd].
  1: destruct (np_delete a idx); simpl; [| exact Hnd].
  all: persist_step; simpl; rewrite Hself; simpl.
  all: destruct (_use_faiss (self w)); [exact Hnd |].
  all: apply NoDup_drop_at; exact Hnd.
Qed.

Lemma delete_embedding_ids_unique emb_id w :
  NoDup (list_embedding_ids (self w)) ->
  NoDup (list_embedding_ids (self (snd (delete_embedding emb_id w)))).
Proof.
  intros Hnd. pose proof (delete_numpy_fallback_ids_unique emb_id w Hnd).
  unfold delete_embedding. monad_unfold.
  destruct (_use_faiss (self w)) eqn:Huse; simpl; [| assumption].
  destruct (_faiss_index (self w)) as [index |] eqn:Hidx; simpl;
    [| assumption].
  unfold list_embedding_ids in *. rewrite Huse in Hnd.
  destruct (find_key (_intid_to_str (self w)) emb_id) as [k |]; simpl.
  2:{ rewrite Huse. exact Hnd. }
  destruct (_HAS_NUMPY (runtime w)); simpl;
    [destruct (int64_array k); simpl;
       [destruct (has_remove_ids (runtime w)); simpl | ] | ];
    persist_step; simpl; rewrite Hself; simpl; rewrite Huse;
    apply NoDup_values_pop; exact Hnd.
Qed.

End Identifiers.

Section IdentifierClaims.
Context {F : Type}.
Implicit Types w : World F.

(** A store built on a directory with no files is coherent, and stays so
    under adds of single vectors and under deletes. *)
Lemma start_coherent rt table dim faiss_installed :
  coherent (F:=F) (snd (start rt no_files table dim faiss_installed)).
Proof.
  destruct faiss_installed; unfold coherent; simpl;
    repeat split; constructor.
Qed.

Lemma delete_embedding_coherent emb_id w :
  coherent w -> coherent (snd (delete_embedding emb_id w)).
Proof.
  intros Hco.
  destruct (in_dec string_dec emb_id (list_embedding_ids (self w)))
    as [Hin | Hout].
  - apply (delete_embedding_present emb_id w Hco Hin).
  - rewrite (delete_embedding_absent emb_id w Hco Hout). exact Hco.
Qed.

Lemma replay_coherent history w :
  Forall adds_single_vectors history ->
  coherent w -> coherent (replay history w).
Proof.
  intros Hall. revert w.
  induction Hall as [| o rest Ho Hrest IH]; intros w Hco; simpl.
  - exact Hco.
  - apply IH. destruct o; simpl in *.
    + apply add_embedding_coherent; assumption.
    + apply delete_embedding_coherent; assumption.
Qed.

(** C7 (amended).  On a coherent store: deleting an id that is not held
    returns [False] and changes nothing; deleting an id that is held returns
    [True] and removes its first occurrence from the list of ids, nothing
    else; and when the id was held exactly once, a second delete of it
    returns [False] and changes nothing. *)
Theorem delete_embedding_removes_one_occurrence emb_id w :
  coherent w ->
  let ids := list_embedding_ids (self w) in
  let first := delete_embedding emb_id w in
  let second := delete_embedding emb_id (snd first) in
  (~ In emb_id ids -> first = (Returns false, w)) /\
  (In emb_id ids ->
   fst first = Returns true /\
   list_embedding_ids (self (snd first)) = remove_first emb_id ids /\
   (count_occ string_dec ids emb_id = 1%nat ->
    second = (Returns false, snd first))).
Proof.
  intros Hco. cbv zeta. split.
  - apply delete_embedding_absent. exact Hco.
  - intros Hin.
    destruct (delete_embedding_present emb_id w Hco Hin)
      as (Hret & Hids & Hco').
    split; [exact Hret | split; [exact Hids |]].
    intros Honce. apply delete_embedding_absent; [exact Hco' |].
    rewrite Hids. apply remove_first_single. exact Honce.
Qed.

(** C9 (amended).  [add_embedding] does not look at the ids already held.
    The ids stay pairwise distinct through every history of adds and deletes
    in which each add brings an id that is not held when it is called;
    deletes never break it. *)
Theorem ids_stay_unique_while_adds_bring_new_ids history w :
  NoDup (list_embedding_ids (self w)) ->
  adds_only_new_ids history w ->
  NoDup (list_embedding_ids (self (replay history w))).
Proof.
  revert w. induction history as [| o rest IH]; intros w Hnd Hnew; simpl.
  - exact Hnd.
  - destruct Hnew as [Ho Hrest]. apply IH; [| exact Hrest].
    destruct o; simpl.
    + apply add_embedding_ids_unique; assumption.
    + apply delete_embedding_ids_unique; assumption.
Qed.

End IdentifierClaims.

(** C9 (as stated) fails: adding an id that is already held leaves two
    records under it, with either backend. *)
Lemma add_embedding_twice_duplicates_the_id :
  list_embedding_ids (self (replay twice_a brute_force_store)) = ["a"; "a"] /\
  list_embedding_ids (self (replay twice_a indexed_store)) = ["a"; "a"] /\
  ~ NoDup (list_embedding_ids (self (replay twice_a brute_force_store))).
Proof.
  split; [reflexivity | split; [reflexivity |]].
  intros H. inversion H as [| ? ? Hin _]. apply Hin. left. reflexivity.
Qed.

(** C7 (as stated) fails: with ["a"] held twice, the second delete of ["a"]
    returns [True] again. *)
Lemma second_delete_returns_True_on_duplicates :
  let w := replay twice_a brute_force_store in
  let first := delete_embedding "a" w in
  let second := delete_embedding "a" (snd first) in
  In "a" (list_embedding_ids (self w)) /\
  fst first = Returns true /\
  fst second = Returns true.
Proof. repeat split. left. reflexivity. Qed.

(** Why the store has to be coherent.  A delete whose matrix write
    completes and whose id-list write is refused leaves a snapshot with one
    row and two ids; a store restarted on it holds ["b"] and cannot delete
    it: [np.delete] raises and nothing is removed. *)
Example delete_embedding_raises_on_a_misaligned_snapshot :
  let w := replay [Add "a" (Flat e1) None; Add "b" (Flat e2) None]
                  brute_force_store in
  let left_behind :=
    dir (snd (delete_embedding "b"
                (with_dir (put_fates [Completes; Refused]) w))) in
  let restarted := snd (start with_numpy left_behind [] 4 false) in
  list_embedding_ids (self restarted) = ["a"; "b"] /\
  delete_embedding "b" restarted = (Raises IndexError, restarted).
Proof. vm_compute. split; reflexivity. Qed.

Lemma delete_embedding_removes_one_occurrence_witness :
  let w := replay a_then_b indexed_store in
  let ids := list_embedding_ids (self w) in
  let first := delete_embedding "a" w in
  let second := delete_embedding "a" (snd first) in
  coherent w /\
  (~ In "a" ids -> first = (Returns false, w)) /\
  (In "a" ids ->
   fst first = Returns true /\
   list_embedding_ids (self (snd first)) = remove_first "a" ids /\
   (count_occ string_dec ids "a" = 1%nat ->
    second = (Returns false, snd first))).
Proof.
  assert (Hco : coherent (replay a_then_b indexed_store)).
  { unfold coherent. simpl. repeat split; try discriminate.
    repeat constructor; simpl; intuition discriminate. }
  split; [exact Hco |].
  apply (delete_embedding_removes_one_occurrence
           "a" (replay a_then_b indexed_store) Hco).
Defined.

Lemma ids_stay_unique_while_adds_bring_new_ids_witness :
  let history := a_replaced in
  NoDup (list_embedding_ids (self brute_force_store)) /\
  adds_only_new_ids history brute_force_store /\
  NoDup (list_embedding_ids (self (replay history brute_force_store))).
Proof.
  assert (Hnd : NoDup (list_embedding_ids (self brute_force_store)))
    by constructor.
  assert (Hnew : adds_only_new_ids a_replaced brute_force_store).
  { simpl. repeat split; try tauto; intuition discriminate. }
  split; [exact Hnd | split; [exact Hnew |]].
  apply (ids_stay_unique_while_adds_bring_new_ids
           a_replaced brute_force_store Hnd Hnew).
Defined.

(** ** Loading at startup *)

Section Startup.
Context {F : Type}.
Implicit Types w : World F.

(** Whatever the directory holds, construction gets past the load: the
    only exception [__init__] lets out is the one of [os.makedirs]. *)
Lemma start_returns rt (dr : Directory F) table dim faiss_installed :
  creatable dr = true ->
  fst (start rt dr table dim faiss_installed) = Returns tt.
Proof.
  intros Hdir. unfold start, __init__. monad_unfold. simpl. rewrite Hdir.
  simpl. destruct faiss_installed; simpl;
    match goal with |- context [_load_index ?x] =>
      destruct (_load_index x) as [[[] | e] w'] end; reflexivity.
Qed.

(** Nothing to load: the object is the blank one. *)
Lemma start_blank_when_files_are_missing rt (dr : Directory F) table dim :
  creatable dr = true ->
  exists_ (embeddings_npy dr) && exists_ (emb_ids_json dr) = false ->
  self (snd (start rt dr table dim false)) = blank dim.
Proof.
  intros Hdir Hnone. unfold start, __init__, _load_index. monad_unfold.
  simpl. rewrite Hdir. simpl. rewrite Hnone. reflexivity.
Qed.

(** The first file fails to load: the object is the blank one. *)
Lemma start_blank_when_the_matrix_is_garbage
    rt (dr : Directory F) table dim :
  creatable dr = true ->
  embeddings_npy dr = Garbage ->
  self (snd (start rt dr table dim false)) = blank dim.
Proof.
  intros Hdir Hmat. unfold start, __init__, _load_index. monad_unfold.
  simpl. rewrite Hdir. simpl. rewrite Hmat. simpl.
  destruct (exists_ (emb_ids_json dr)); simpl; [| reflexivity].
  destruct (_HAS_NUMPY rt); simpl; [| reflexivity].
  rewrite Hmat. reflexivity.
Qed.

(** C8 (as the code has it).  With the numpy backend, when embeddings.npy
    loads and emb_ids.json then fails to parse, construction returns
    normally but does not start from the empty state: the object keeps the
    matrix it had already assigned, with an empty list of ids. *)
Theorem start_keeps_the_matrix_when_the_ids_fail_to_load
    rt (dr : Directory F) table dim a :
  _HAS_NUMPY rt = true ->
  creatable dr = true ->
  embeddings_npy dr = Holds a ->
  emb_ids_json dr = Garbage ->
  let run := start rt dr table dim false in
  fst run = Returns tt /\
  _emb_matrix (self (snd run)) = Some a /\
  _emb_ids (self (snd run)) = [] /\
  self (snd run) <> blank dim.
Proof.
  intros Hnp Hdir Hmat Hids. cbv zeta.
  split; [apply start_returns; exact Hdir |].
  unfold start, __init__, _load_index. monad_unfold.
  simpl. rewrite Hdir. simpl. rewrite Hmat, Hids. simpl. rewrite Hnp. simpl.
  rewrite Hmat. simpl. rewrite Hids. simpl.
  repeat split. discriminate.
Qed.

(** The same with the FAISS backend: index.faiss loads, meta.json fails to
    parse, and the object keeps the index with an empty id mapping and the
    counter back at 1. *)
Lemma start_keeps_the_index_when_the_mapping_fails_to_load
    rt (dr : Directory F) table dim index :
  creatable dr = true ->
  index_faiss dr = Holds index ->
  meta_json dr = Garbage ->
  let run := start rt dr table dim true in
  fst run = Returns tt /\
  _faiss_index (self (snd run)) = Some index /\
  _intid_to_str (self (snd run)) = [] /\
  _next_int_id (self (snd run)) = 1.
Proof.
  intros Hdir Hidx Hmeta. cbv zeta.
  split; [apply start_returns; exact Hdir |].
  unfold start, __init__, _load_index. monad_unfold.
  simpl. rewrite Hdir. simpl. rewrite Hidx. simpl. rewrite Hidx. simpl.
  rewrite Hmeta. simpl. rewrite Hmeta. simpl.
  repeat split.
Qed.

End Startup.

Lemma start_keeps_the_matrix_when_the_ids_fail_to_load_witness :
  let run := start with_numpy torn_snapshot [] 4 false in
  _HAS_NUMPY with_numpy = true /\
  creatable torn_snapshot = true /\
  embeddings_npy torn_snapshot = Holds {| ncols := 4; rows := [e1] |} /\
  emb_ids_json torn_snapshot = Garbage /\
  fst run = Returns tt /\
  _emb_matrix (self (snd run)) = Some {| ncols := 4; rows := [e1] |} /\
  _emb_ids (self (snd run)) = [] /\
  self (snd run) <> blank 4.
Proof.
  do 4 (split; [reflexivity |]).
  apply (start_keeps_the_matrix_when_the_ids_fail_to_load
           with_numpy torn_snapshot [] 4 {| ncols := 4; rows := [e1] |});
    reflexivity.
Defined.

(** What the kept matrix does to the next add: ["b"] is paired with the
    row that was loaded for ["a"]. *)
Example add_after_half_loaded_start :
  let w := snd (start with_numpy torn_snapshot [] 4 false) in
  let w' := snd (add_embedding "b" (Flat e2) None w) in
  _emb_matrix (self w') = Some {| ncols := 4; rows := [e1; e2] |} /\
  _emb_ids (self w') = ["b"].
Proof. split; reflexivity. Qed.

(** * Properties of the rest of the Memory layer *)

Local Open Scope list_scope.

(** ** The task queue *)

Section Queue.
Context {F : Type}.
Implicit Types w : World F.

Lemma add_task_run id cmd w :
  add_task id cmd w
  = (Returns tt,
     with_tasks (insert_or_ignore id cmd)
       (if _conn (self w) then w else with_self (set_conn true) w)).
Proof.
  unfold add_task, _ensure_conn. monad_unfold.
  destruct (_conn (self w)); reflexivity.
Qed.

Lemma get_next_task_run w :
  get_next_task w
  = (Returns (select_pending (tasks w)),
     if _conn (self w) then w else with_self (set_conn true) w).
Proof.
  unfold get_next_task, _ensure_conn. monad_unfold.
  destruct (_conn (self w)); reflexivity.
Qed.

Lemma close_run w :
  close w
  = (Returns tt,
     if _conn (self w)
     then with_self (set_conn false)
            (if db_persistent (runtime w) then w
             else with_tasks (fun _ => []) w)
     else w).
Proof.
  unfold close. monad_unfold.
  destruct (_conn (self w)); [| reflexivity].
  destruct (db_persistent (runtime w)); reflexivity.
Qed.

Lemma tasks_reopened w :
  tasks (if _conn (self w) then w else with_self (set_conn true) w) = tasks w.
Proof. destruct (_conn (self w)); reflexivity. Qed.

Lemma call_tasks c w :
  tasks (call c w)
  = match c with
    | AddTask id cmd => insert_or_ignore id cmd (tasks w)
    | StoreResult id res => update_where_id id res (tasks w)
    | GetNextTask => tasks w
    | Close =>
        if (_conn (self w) && negb (db_persistent (runtime w)))%bool
        then [] else tasks w
    end.
Proof.
  destruct c; simpl.
  - rewrite add_task_run. simpl. rewrite tasks_reopened. reflexivity.
  - rewrite get_next_task_run. simpl. apply tasks_reopened.
  - rewrite store_result_run. simpl. rewrite tasks_reopened. reflexivity.
  - rewrite close_run. simpl.
    destruct (_conn (self w)); [| reflexivity].
    destruct (db_persistent (runtime w)); reflexivity.
Qed.

(** No call changes what the object runs with. *)
Lemma call_runtime c w : runtime (call c w) = runtime w.
Proof.
  destruct c; simpl.
  - rewrite add_task_run. simpl. destruct (_conn (self w)); reflexivity.
  - rewrite get_next_task_run. simpl. destruct (_conn (self w)); reflexivity.
  - rewrite store_result_run. simpl. destruct (_conn (self w)); reflexivity.
  - rewrite close_run. simpl.
    destruct (_conn (self w)); [| reflexivity].
    destruct (db_persistent (runtime w)); reflexivity.
Qed.

Lemma find_existsb id (table : list task) :
  existsb (fun t => String.eqb (task_id t) id) table
  = match find (fun t => String.eqb (task_id t) id) table with
    | Some _ => true
    | None => false
    end.
Proof.
  induction table as [| t rest IH]; simpl; [reflexivity |].
  destruct (String.eqb (task_id t) id); [reflexivity | exact IH].
Qed.

Lemma find_app_left id (l1 l2 : list task) t :
  find (fun t => String.eqb (task_id t) id) l1 = Some t ->
  find (fun t => String.eqb (task_id t) id) (l1 ++ l2) = Some t.
Proof.
  induction l1 as [| x rest IH]; simpl; [discriminate |].
  destruct (String.eqb (task_id x) id); [tauto | exact IH].
Qed.

Lemma find_app_right id (l1 l2 : list task) :
  find (fun t => String.eqb (task_id t) id) l1 = None ->
  find (fun t => String.eqb (task_id t) id) (l1 ++ l2)
  = find (fun t => String.eqb (task_id t) id) l2.
Proof.
  induction l1 as [| x rest IH]; simpl; [reflexivity |].
  destruct (String.eqb (task_id x) id); [discriminate | exact IH].
Qed.

Lemma find_update_other id id' res (table : list task) :
  id' <> id ->
  find (fun t => String.eqb (task_id t) id') (update_where_id id res table)
  = find (fun t => String.eqb (task_id t) id') table.
Proof.
  intros Hne. induction table as [| t rest IH]; simpl; [reflexivity |].
  destruct (String.eqb_spec (task_id t) id) as [E | E]; simpl.
  - destruct (String.eqb_spec (task_id t) id') as [E' | E'];
      [congruence | exact IH].
  - rewrite IH. reflexivity.
Qed.

Lemma map_id_update id res (table : list task) :
  map task_id (update_where_id id res table) = map task_id table.
Proof.
  induction table as [| t rest IH]; simpl; [reflexivity |].
  rewrite IH. destruct (String.eqb (task_id t) id); reflexivity.
Qed.

Lemma find_none_not_in id (table : list task) :
  find (fun t => String.eqb (task_id t) id) table = None ->
  ~ In id (map task_id table).
Proof.
  induction table as [| t rest IH]; simpl; [tauto |].
  destruct (String.eqb_spec (task_id t) id) as [E | E]; [discriminate |].
  intros H [H' | H']; [contradiction | exact (IH H H')].
Qed.

(** [fetch] after one call, for a task that was there: the call is not a
    [close], or the database is a file. *)
Lemma call_keeps_tasks c w id t :
  db_persistent (runtime w) = true \/ c <> Close ->
  fetch id w = Some t ->
  exists t', fetch id (call c w) = Some t' /\
             task_id t' = task_id t /\
             command t' = command t /\
             (task_status t = done -> task_status t' = done).
Proof.
  unfold fetch. rewrite call_tasks. intros Hkept Hf.
  destruct c as [id' cmd | | id' res |].
  - unfold insert_or_ignore.
    destruct (existsb _ (tasks w)).
    + exists t. auto.
    + exists t. split; [apply find_app_left; exact Hf | auto].
  - exists t. auto.
  - destruct (String.eqb_spec id id') as [-> | Hne].
    + rewrite fetch_update_where_id, Hf. eexists. split; [reflexivity |].
      simpl. auto.
    + rewrite find_update_other by exact Hne. exists t. auto.
  - destruct Hkept as [Hfile | Hne]; [| contradiction].
    rewrite Hfile, andb_false_r. exists t. auto.
Qed.

(** X4.  On a database file, through every sequence of [add_task],
    [get_next_task], [store_result] and [close]; and on a database that is
    no file, from an open connection through every such sequence without
    [close]: a task that is in the table stays in it with its id and
    command, and a task that is done stays done. *)
Theorem tasks_are_never_lost_and_done_stays_done l w id t :
  db_persistent (runtime w) = true \/
  (_conn (self w) = true /\ ~ In Close l) ->
  fetch id w = Some t ->
  exists t', fetch id (calls l w) = Some t' /\
             task_id t' = task_id t /\
             command t' = command t /\
             (task_status t = done -> task_status t' = done).
Proof.
  intros Hkept.
  assert (Hkept' : db_persistent (runtime w) = true \/ ~ In Close l)
    by tauto.
  clear Hkept. revert w t Hkept'.
  induction l as [| c rest IH]; intros w t Hkept Hf; simpl.
  - exists t. auto.
  - assert (Hc1 : db_persistent (runtime w) = true \/ c <> Close).
    { destruct Hkept as [H | H]; [left; exact H |].
      right. intros ->. apply H. left. reflexivity. }
    assert (Hrest : db_persistent (runtime (call c w)) = true \/
                    ~ In Close rest).
    { rewrite call_runtime. destruct Hkept as [H | H]; [left; exact H |].
      right. intros Hin. apply H. right. exact Hin. }
    destruct (call_keeps_tasks c w id t Hc1 Hf)
      as (t1 & H1 & Hid & Hc & Hs).
    destruct (IH (call c w) t1 Hrest H1) as (t2 & H2 & Hid' & Hc' & Hs').
    exists t2. split; [exact H2 |].
    split; [congruence | split; [congruence | tauto]].
Qed.

(** X5.  Through every sequence of queue calls the ids of the table stay
    pairwise distinct. *)
Theorem task_ids_stay_unique l w :
  NoDup (map task_id (tasks w)) ->
  NoDup (map task_id (tasks (calls l w))).
Proof.
  revert w. induction l as [| c rest IH]; intros w Hnd; simpl;
    [exact Hnd |].
  apply IH. rewrite call_tasks. destruct c as [id cmd | | id res |];
    try exact Hnd.
  - unfold insert_or_ignore. rewrite find_existsb.
    destruct (find _ (tasks w)) eqn:E; [exact Hnd |].
    rewrite map_app. simpl. apply NoDup_snoc; [exact Hnd |].
    apply find_none_not_in. exact E.
  - rewrite map_id_update. exact Hnd.
  - destruct (_conn (self w) && negb (db_persistent (runtime w)))%bool;
      [constructor | exact Hnd].
Qed.


(** ** Serving order *)

Lemma select_pending_found (table : list task) id cmd :
  select_pending table = Some (id, cmd) ->
  exists before t after,
    table = before ++ t :: after /\
    task_id t = id /\ command t = cmd /\ task_status t = pending /\
    Forall (fun t' => task_status t' = done) before.
Proof.
  unfold select_pending.
  induction table as [| x rest IH]; simpl; [discriminate |].
  destruct (task_status x) eqn:Hx.
  - intros [= <- <-]. exists [], x, rest. repeat split; auto.
  - intros H. destruct (IH H) as (before & t & after & -> & Hid & Hc & Hs & Hb).
    exists (x :: before), t, after. repeat split; auto.
Qed.

Lemma select_pending_none (table : list task) :
  select_pending table = None ->
  Forall (fun t => task_status t = done) table.
Proof.
  unfold select_pending.
  induction table as [| x rest IH]; simpl; [constructor |].
  destruct (task_status x) eqn:Hx; [discriminate |].
  intros H. constructor; [exact Hx | exact (IH H)].
Qed.

(** X2.  [get_next_task] returns, changes no row, and a second call
    gives the same answer (nothing is marked as taken).  When it returns a
    task, that task is pending and every task inserted before it is done;
    when it returns [None], every task is done. *)
Theorem get_next_task_serves_the_oldest_pending_task w :
  exists served,
    fst (get_next_task w) = Returns served /\
    tasks (snd (get_next_task w)) = tasks w /\
    fst (get_next_task (snd (get_next_task w))) = Returns served /\
    match served with
    | Some (id, cmd) =>
        exists before t after,
          tasks w = before ++ t :: after /\
          task_id t = id /\ command t = cmd /\ task_status t = pending /\
          Forall (fun t' => task_status t' = done) before
    | None => Forall (fun t => task_status t = done) (tasks w)
    end.
Proof.
  exists (select_pending (tasks w)).
  rewrite !get_next_task_run. simpl. rewrite !tasks_reopened.
  do 3 (split; [reflexivity |]).
  destruct (select_pending (tasks w)) as [[id cmd] |] eqn:E.
  - apply select_pending_found. exact E.
  - apply select_pending_none. exact E.
Qed.

(** ** Completing the served task *)

Lemma filter_pending_update_absent id res (table : list task) :
  ~ In id (map task_id table) ->
  filter is_pending (update_where_id id res table) = filter is_pending table.
Proof.
  induction table as [| x rest IH]; simpl; [reflexivity |].
  intros H. destruct (String.eqb_spec (task_id x) id) as [E | E];
    [tauto |].
  rewrite IH by tauto. reflexivity.
Qed.

Lemma backlog_update_served id res (before after : list task) t :
  NoDup (map task_id (before ++ t :: after)) ->
  task_id t = id -> task_status t = pending ->
  S (length (filter is_pending
               (update_where_id id res (before ++ t :: after))))
  = length (filter is_pending (before ++ t :: after)).
Proof.
  intros Hnd Hid Hs.
  rewrite map_app in Hnd. simpl in Hnd.
  apply NoDup_remove in Hnd. destruct Hnd as [Hnd Hnot].
  rewrite in_app_iff in Hnot. rewrite Hid in Hnot.
  pose proof (filter_pending_update_absent id res before) as Hb.
  pose proof (filter_pending_update_absent id res after) as Ha.
  assert (Hp : is_pending t = true) by (unfold is_pending; rewrite Hs; reflexivity).
  unfold update_where_id in *. rewrite map_app. simpl map.
  destruct (String.eqb_spec (task_id t) id) as [_ | E]; [| contradiction].
  rewrite !filter_app. simpl filter. rewrite Hp.
  change (is_pending {| task_id := task_id t; command := command t;
                        task_status := done; result := Some res |})
    with false.
  rewrite Hb, Ha by tauto. rewrite !length_app. simpl. lia.
Qed.

Lemma select_pending_not_done id res (table : list task) cmd :
  select_pending (update_where_id id res table) <> Some (id, cmd).
Proof.
  intros H. apply select_pending_found in H.
  destruct H as (before & t & after & Ht & Hid & _ & Hs & _).
  assert (Hin : In t (update_where_id id res table))
    by (rewrite Ht; apply in_elt).
  unfold update_where_id in Hin. apply in_map_iff in Hin.
  destruct Hin as (x & Hx & _).
  destruct (String.eqb_spec (task_id x) id) as [E | E]; subst t.
  - simpl in Hs. discriminate.
  - contradiction.
Qed.

(** X3.  With task ids pairwise distinct: after [store_result] on the id
    that [get_next_task] served, that task is done with the given result,
    the backlog is smaller by exactly one, and [get_next_task] does not
    serve that id again. *)
Theorem completing_the_served_task_takes_it_off_the_backlog
    w id cmd res :
  NoDup (map task_id (tasks w)) ->
  fst (get_next_task w) = Returns (Some (id, cmd)) ->
  let w' := snd (store_result id res w) in
  S (backlog w') = backlog w /\
  (forall cmd', fst (get_next_task w') <> Returns (Some (id, cmd'))) /\
  exists t, fetch id w' = Some t /\ task_status t = done /\
            result t = Some res.
Proof.
  intros Hnd. rewrite get_next_task_run. simpl. intros [= Hsel]. cbv zeta.
  destruct (select_pending_found _ _ _ Hsel)
    as (before & t & after & Ht & Hid & Hc & Hs & Hb).
  unfold backlog, fetch. rewrite store_result_run. simpl.
  rewrite tasks_reopened. split; [| split].
  - rewrite Ht in *. apply backlog_update_served; assumption.
  - intros cmd'. rewrite get_next_task_run. simpl.
    destruct (_conn (self w)); simpl; intros [= H];
      exact (select_pending_not_done _ _ _ _ H).
  - rewrite fetch_update_where_id.
    destruct (find _ (tasks w)) as [x |] eqn:E.
    + eexists. split; [reflexivity |]. split; reflexivity.
    + exfalso. apply find_none_not_in in E. apply E.
      rewrite Ht, map_app. apply in_or_app. right. left. exact Hid.
Qed.

(** ** Enqueueing *)

Lemma select_pending_app (l1 l2 : list task) :
  select_pending (l1 ++ l2)
  = match select_pending l1 with
    | Some x => Some x
    | None => select_pending l2
    end.
Proof.
  unfold select_pending. induction l1 as [| x rest IH]; simpl.
  - destruct (filter _ l2); reflexivity.
  - destruct (task_status x); [reflexivity | exact IH].
Qed.

(** X1.  [add_task] returns.  For an id some task already has it changes
    no row: command, status and result of that task stay, a done task is
    not queued again.  For a new id it appends a pending task with that
    command and no result, the backlog grows by one, and [get_next_task]
    then still serves the oldest task that was pending, the new one only
    when none was. *)
Theorem add_task_enqueues_new_ids_and_ignores_known_ones id cmd w :
  let w' := snd (add_task id cmd w) in
  fst (add_task id cmd w) = Returns tt /\
  match fetch id w with
  | Some t => tasks w' = tasks w
  | None =>
      fetch id w' = Some {| task_id := id; command := cmd;
                            task_status := pending; result := None |} /\
      backlog w' = S (backlog w) /\
      fst (get_next_task w')
      = Returns (match select_pending (tasks w) with
                 | Some first => Some first
                 | None => Some (id, cmd)
                 end)
  end.
Proof.
  cbv zeta. rewrite add_task_run. simpl. split; [reflexivity |].
  unfold fetch, backlog. rewrite get_next_task_run. simpl.
  rewrite !tasks_reopened. unfold insert_or_ignore. rewrite find_existsb.
  destruct (find _ (tasks w)) eqn:E; [reflexivity |].
  split; [| split].
  - rewrite find_app_right by exact E. simpl. rewrite String.eqb_refl.
    reflexivity.
  - rewrite filter_app, length_app. simpl. lia.
  - rewrite select_pending_app. destruct (select_pending (tasks w));
      reflexivity.
Qed.

(** ** The connection *)

(** X6.  A second [close] does nothing, [close] never touches the index
    directory, and every queue call but [close] leaves a connection open,
    also on a closed store.  On a database file [close] leaves the table as
    it is, and a queue call made on the closed store does to the table what
    it does on the open one.  On a database that is no file, closing the
    open connection loses every task: [get_next_task] then returns
    [None]. *)
Theorem closing_keeps_the_tasks_of_a_database_file_only c w :
  close (snd (close w)) = (Returns tt, snd (close w)) /\
  dir (snd (close w)) = dir w /\
  (c <> Close -> _conn (self (call c (snd (close w)))) = true) /\
  (db_persistent (runtime w) = true ->
   tasks (snd (close w)) = tasks w /\
   tasks (call c (snd (close w))) = tasks (call c w)) /\
  (db_persistent (runtime w) = false -> _conn (self w) = true ->
   tasks (snd (close w)) = [] /\
   fst (get_next_task (snd (close w))) = Returns None).
Proof.
  split; [| split; [| split; [| split]]].
  - rewrite !close_run. simpl.
    destruct (_conn (self w)) eqn:E; simpl; rewrite ?E; [| reflexivity].
    destruct (db_persistent (runtime w)); reflexivity.
  - rewrite close_run. simpl. destruct (_conn (self w)); [| reflexivity].
    destruct (db_persistent (runtime w)); reflexivity.
  - intros Hne. destruct c; simpl.
    + rewrite add_task_run. simpl.
      destruct (_conn (self (snd (close w)))) eqn:E; simpl; rewrite ?E;
        reflexivity.
    + rewrite get_next_task_run. simpl.
      destruct (_conn (self (snd (close w)))) eqn:E; simpl; rewrite ?E;
        reflexivity.
    + rewrite store_result_run. simpl.
      destruct (_conn (self (snd (close w)))) eqn:E; simpl; rewrite ?E;
        reflexivity.
    + contradiction.
  - intros Hfile.
    assert (Hc : tasks (snd (close w)) = tasks w).
    { rewrite close_run. simpl. rewrite Hfile.
      destruct (_conn (self w)); reflexivity. }
    split; [exact Hc |].
    rewrite !call_tasks, Hc.
    assert (Hrt : runtime (snd (close w)) = runtime w)
      by apply (call_runtime Close w).
    rewrite Hrt, Hfile, !andb_false_r. reflexivity.
  - intros Hmem Hconn.
    assert (Hc : tasks (snd (close w)) = []).
    { rewrite close_run. simpl. rewrite Hconn, Hmem. reflexivity. }
    split; [exact Hc |].
    rewrite get_next_task_run. simpl. rewrite Hc. reflexivity.
Qed.

End Queue.

Lemma tasks_are_never_lost_and_done_stays_done_witness :
  let l := [StoreResult "t1" "again"; AddTask "t1" "reboot"; Close] in
  (db_persistent (runtime three_tasks) = true \/
   (_conn (self three_tasks) = true /\ ~ In Close l)) /\
  fetch "t1" three_tasks
  = Some {| task_id := "t1"; command := "whois example.org";
            task_status := done; result := Some "ok" |} /\
  exists t', fetch "t1" (calls l three_tasks) = Some t' /\
             task_id t' = "t1" /\
             command t' = "whois example.org" /\
             (done = done -> task_status t' = done).
Proof.
  split; [left; reflexivity | split; [reflexivity |]].
  apply (tasks_are_never_lost_and_done_stays_done
           [StoreResult "t1" "again"; AddTask "t1" "reboot"; Close]
           three_tasks "t1"
           {| task_id := "t1"; command := "whois example.org";
              task_status := done; result := Some "ok" |});
    [left; reflexivity | reflexivity].
Defined.

Lemma closing_keeps_the_tasks_of_a_database_file_only_witness :
  tasks (call GetNextTask (snd (close three_tasks))) = tasks three_tasks /\
  tasks (snd (close demo_store_with_a_task)) = [] /\
  fst (get_next_task (snd (close demo_store_with_a_task))) = Returns None.
Proof.
  destruct (closing_keeps_the_tasks_of_a_database_file_only
              GetNextTask three_tasks) as (_ & _ & _ & Hfile & _).
  destruct (closing_keeps_the_tasks_of_a_database_file_only
              GetNextTask demo_store_with_a_task) as (_ & _ & _ & _ & Hmem).
  split; [rewrite (proj2 (Hfile eq_refl)); reflexivity |].
  exact (Hmem eq_refl eq_refl).
Defined.

(** The same task is served before [close] on the database that is no
    file. *)
Example the_demo_store_serves_its_task_until_it_is_closed :
  fst (get_next_task demo_store_with_a_task)
  = Returns (Some ("t1", "whois example.org")).
Proof. reflexivity. Qed.

Lemma task_ids_stay_unique_witness :
  let l := [AddTask "t2" "curl example.org"; AddTask "t4" "scan"] in
  NoDup (map task_id (tasks three_tasks)) /\
  NoDup (map task_id (tasks (calls l three_tasks))).
Proof.
  assert (Hnd : NoDup (map task_id (tasks three_tasks))).
  { simpl. repeat constructor; simpl; intuition discriminate. }
  split; [exact Hnd |].
  apply (task_ids_stay_unique
           [AddTask "t2" "curl example.org"; AddTask "t4" "scan"]
           three_tasks Hnd).
Defined.

Lemma completing_the_served_task_takes_it_off_the_backlog_witness :
  let w' := snd (store_result "t2" "blocked_by_human" three_tasks) in
  NoDup (map task_id (tasks three_tasks)) /\
  fst (get_next_task three_tasks)
  = Returns (Some ("t2", "nmap -sV 10.0.0.5")) /\
  S (backlog w') = backlog three_tasks /\
  (forall cmd', fst (get_next_task w') <> Returns (Some ("t2", cmd'))) /\
  exists t, fetch "t2" w' = Some t /\ task_status t = done /\
            result t = Some "blocked_by_human".
Proof.
  assert (Hnd : NoDup (map task_id (tasks three_tasks))).
  { simpl. repeat constructor; simpl; intuition discriminate. }
  split; [exact Hnd | split; [reflexivity |]].
  apply (completing_the_served_task_takes_it_off_the_backlog
           three_tasks "t2" "nmap -sV 10.0.0.5" "blocked_by_human"
           Hnd eq_refl).
Defined.



Lemma set_new_key (acc : list (Z * string)) k v :
  ~ In k (map fst acc) -> Dict.set Z.eqb acc k v = acc ++ [(k, v)].
Proof.
  induction acc as [| [k' v'] rest IH]; simpl; [reflexivity |].
  intros H. destruct (Z.eqb_spec k' k) as [E | E]; [tauto |].
  rewrite IH by tauto. reflexivity.
Qed.

Lemma fold_set_distinct (items acc : list (Z * string)) :
  NoDup (map fst (acc ++ items)) ->
  fold_left (fun d kv => Dict.set Z.eqb d (fst kv) (snd kv)) items acc
  = acc ++ items.
Proof.
  revert acc. induction items as [| [k v] rest IH]; intros acc Hnd; simpl.
  - rewrite app_nil_r. reflexivity.
  - rewrite set_new_key.
    + rewrite IH; rewrite <- app_assoc; [reflexivity | exact Hnd].
    + rewrite map_app in Hnd. simpl in Hnd.
      apply NoDup_remove_2 in Hnd. rewrite in_app_iff in Hnd. tauto.
Qed.

Lemma of_items_distinct (t : list (Z * string)) :
  NoDup (map fst t) -> Dict.of_items Z.eqb t = t.
Proof. intros H. unfold Dict.of_items. apply (fold_set_distinct t []). exact H. Qed.

Section Snapshots.
Context {F : Type}.
Implicit Types w : World F.

Lemma restart_of_a_current_snapshot w :
  coherent w ->
  creatable (dir w) = true ->
  snapshot_is_current w ->
  same_embeddings (self (restart w)) (self w) /\
  list_embedding_ids (self (restart w)) = list_embedding_ids (self w).
Proof.
  intros [Hfa Hco] Hdir Hsnap.
  unfold restart, start, __init__, _load_index, same_embeddings,
    list_embedding_ids, snapshot_is_current in *.
  monad_unfold. simpl. rewrite Hdir. simpl.
  destruct (_use_faiss (self w)) eqn:Huse; simpl.
  - destruct Hsnap as (index & Hidx & Hfile & Hmeta).
    destruct Hco as (_ & Hnd & _).
    rewrite Hfile. simpl. rewrite Hfile. simpl. rewrite Hmeta. simpl.
    rewrite Hmeta. simpl. rewrite (of_items_distinct _ Hnd), Hidx.
    repeat split.
  - destruct Hsnap as (a & Ha & Hfile & Hids).
    rewrite Ha in Hco. destruct Hco as [Hnp _].
    rewrite Hfile, Hids. simpl. rewrite Hnp. simpl. rewrite Hfile. simpl.
    rewrite Hids. simpl. rewrite Ha. repeat split.
Qed.


Lemma same_snapshot_files_refl w : same_snapshot_files w w.
Proof. repeat split. Qed.

Lemma same_snapshot_files_trans (a b c : World F) :
  same_snapshot_files a b -> same_snapshot_files b c ->
  same_snapshot_files a c.
Proof.
  unfold same_snapshot_files.
  intros (Ha & ? & ? & ? & ? & ?) (Hb & ? & ? & ? & ? & ?).
  split; [eapply same_memory_trans; eassumption |].
  repeat split; congruence.
Qed.

Lemma merge_metadata_same_snapshot_files emb_id md :
  keeps (F:=F) same_snapshot_files (merge_metadata emb_id md).
Proof.
  unfold merge_metadata.
  frame same_snapshot_files_refl same_snapshot_files_trans.
  intros w. unfold store.
  destruct (fates (dir w)) as [| [] rest]; repeat split.
Qed.

Lemma snapshot_is_current_carried w w' :
  same_snapshot_files w w' ->
  snapshot_is_current w -> snapshot_is_current w'.
Proof.
  intros ((_ & Hself & _) & _ & H1 & H2 & H3 & H4).
  unfold snapshot_is_current. rewrite Hself, H1, H2, H3, H4. tauto.
Qed.

(** With every write completing, [_save_index] leaves a current snapshot,
    provided the backend in use holds something to write. *)
Lemma _save_index_lands w :
  fates (dir w) = [] ->
  (if _use_faiss (self w) then _faiss_index (self w) <> None
   else _emb_matrix (self w) <> None) ->
  let w' := snd (_save_index w) in
  same_memory w w' /\
  snapshot_is_current w' /\
  fates (dir w') = [] /\
  creatable (dir w') = creatable (dir w) /\
  metadata_json (dir w') = metadata_json (dir w).
Proof.
  intros Hfates Hhas. cbv zeta.
  unfold _save_index, snapshot_is_current, store. monad_unfold.
  destruct (_use_faiss (self w)) eqn:Huse.
  - destruct (_faiss_index (self w)) as [index |] eqn:Hidx; [| congruence].
    simpl. rewrite Hfates. simpl. rewrite Hfates. simpl.
    rewrite Huse, Hidx. repeat split; rewrite ?Hfates; try reflexivity.
    exists index. repeat split.
  - destruct (_emb_matrix (self w)) as [a |] eqn:Ha; [| congruence].
    destruct (_faiss_index (self w)); simpl; rewrite ?Ha; simpl;
      rewrite Hfates; simpl; rewrite ?Hfates; simpl; rewrite ?Huse, ?Ha;
      (repeat split; rewrite ?Hfates; try reflexivity);
      exists a; repeat split.
Qed.


End Snapshots.

(** Replaces a call of [_persist_index_async] whose writes all complete by
    what it leaves: the same object and a current snapshot. *)
Ltac lands_step :=
  match goal with
  | |- context [_persist_index_async ?x] =>
      let Hret := fresh "Hret" in
      let Hland := fresh "Hland" in
      let o := fresh "o" in
      let wx := fresh "wx" in
      pose proof (_persist_index_async_returns x) as Hret;
      pose proof (_save_index_lands x) as Hland;
      change (_save_index x) with (_persist_index_async x) in Hland;
      cbv zeta in Hland;
      destruct (_persist_index_async x) as [o wx];
      simpl in Hret, Hland; subst o
  end.

Ltac merge_lands_step :=
  match goal with
  | |- context [merge_metadata ?a ?b ?x] =>
      let Hret := fresh "Hret" in
      let Hsame := fresh "Hsame" in
      let o := fresh "o" in
      let wx := fresh "wx" in
      pose proof (merge_metadata_returns a b x) as Hret;
      pose proof (merge_metadata_same_snapshot_files a b x) as Hsame;
      destruct (merge_metadata a b x) as [o wx];
      simpl in Hret, Hsame; subst o
  end.

Section Durability.
Context {F : Type}.
Implicit Types w : World F.

Lemma add_embedding_leaves_a_current_snapshot emb_id vector metadata w :
  coherent w ->
  fates (dir w) = [] ->
  fst (add_embedding emb_id vector metadata w) = Returns tt ->
  let w' := snd (add_embedding emb_id vector metadata w) in
  snapshot_is_current w' /\ creatable (dir w') = creatable (dir w).
Proof.
  intros [Hfa Hco] Hfates. cbv zeta. unfold add_embedding. monad_unfold.
  destruct (_HAS_NUMPY (runtime w)) eqn:Hnp; simpl; [| discriminate].
  destruct (as_2d vector) as [vec |] eqn:Hvec; simpl; [| discriminate].
  destruct (ncols vec =? embedding_dim (self w)) eqn:Hdim; simpl;
    [| discriminate].
  rewrite Hfa. destruct (_use_faiss (self w)) eqn:Huse; simpl.
  - destruct (_faiss_index (self w)) as [index |] eqn:Hidx; simpl.
    all: rewrite ?Hidx; simpl.
    all: destruct (int64_array (_next_int_id (self w))); simpl;
           [| discriminate].
    all: match goal with |- context [add_with_ids ?i ?x ?l] =>
           destruct (add_with_ids i x l); simpl; [| discriminate] end.
    all: lands_step.
    all: destruct Hland as (Hmem & Hcur & Hf & Hcr & _);
           [exact Hfates | rewrite Huse; discriminate |].
    all: destruct metadata; simpl; [merge_lands_step |]; simpl; intros _.
    all: try (split; [eapply snapshot_is_current_carried; eassumption |];
              destruct Hsame as (_ & -> & _); exact Hcr).
    all: split; assumption.
  - destruct (_emb_matrix (self w)) as [a |] eqn:Ha; simpl.
    1: destruct (vstack a vec); simpl; [| discriminate].
    all: lands_step.
    all: destruct Hland as (Hmem & Hcur & Hf & Hcr & _);
           [exact Hfates | rewrite Huse; discriminate |].
    all: destruct metadata; simpl; [merge_lands_step |]; simpl; intros _.
    all: try (split; [eapply snapshot_is_current_carried; eassumption |];
              destruct Hsame as (_ & -> & _); exact Hcr).
    all: split; assumption.
Qed.


Lemma delete_embedding_leaves_a_current_snapshot emb_id w :
  coherent w ->
  fates (dir w) = [] ->
  fst (delete_embedding emb_id w) = Returns true ->
  let w' := snd (delete_embedding emb_id w) in
  snapshot_is_current w' /\ creatable (dir w') = creatable (dir w).
Proof.
  intros [Hfa Hco] Hfates. cbv zeta.
  unfold delete_embedding, delete_numpy_fallback. monad_unfold.
  destruct (_use_faiss (self w)) eqn:Huse.
  - destruct Hco as (Hids & _ & _).
    destruct (_faiss_index (self w)) as [index |] eqn:Hidx; simpl.
    + destruct (find_key (_intid_to_str (self w)) emb_id) as [k |];
        [| discriminate].
      destruct (_HAS_NUMPY (runtime w)); simpl;
        [destruct (int64_array k); simpl;
           [destruct (has_remove_ids (runtime w)); simpl | ] | ];
        lands_step;
        (destruct Hland as (Hmem & Hcur & Hf & Hcr & _);
           [exact Hfates | rewrite Huse, ?Hidx; discriminate |]);
        simpl; intros _; split; assumption.
    + rewrite Hids. simpl. discriminate.
  - destruct (_emb_matrix (self w)) as [a |] eqn:Ha.
    2:{ rewrite Hco. destruct (_faiss_index (self w)); simpl; discriminate. }
    destruct (_faiss_index (self w)); simpl.
    all: destruct (index_of emb_id (_emb_ids (self w))) as [idx |];
           [| discriminate].
    all: simpl; rewrite ?Ha; simpl.
    all: destruct (_HAS_NUMPY (runtime w)); simpl; [| discriminate].
    all: destruct (np_delete a idx); simpl; [| discriminate].
    all: lands_step.
    all: destruct Hland as (Hmem & Hcur & Hf & Hcr & _);
           [exact Hfates | rewrite Huse; discriminate |].
    all: simpl; intros _; split; assumption.
Qed.

(** X8.  On a coherent store whose writes all complete: after an
    [add_embedding] of a single vector that returned, or a
    [delete_embedding] that returned [True], a new [Memory] built on the
    same directory with the same configuration holds the same embeddings
    (index, mapping and counter, or matrix and ids) and lists the same
    ids. *)
Theorem a_mutation_that_returned_survives_a_restart (o : mutation F) w :
  coherent w ->
  creatable (dir w) = true ->
  fates (dir w) = [] ->
  adds_single_vectors o ->
  succeeded o w ->
  let w' := perform o w in
  same_embeddings (self (restart w')) (self w') /\
  list_embedding_ids (self (restart w')) = list_embedding_ids (self w').
Proof.
  intros Hco Hdir Hfates Hone Hok. cbv zeta.
  apply restart_of_a_current_snapshot; destruct o; simpl in *.
  - apply add_embedding_coherent; assumption.
  - apply delete_embedding_coherent; assumption.
  - destruct (add_embedding_leaves_a_current_snapshot
                emb_id vector metadata w Hco Hfates Hok) as [_ ->].
    exact Hdir.
  - destruct (delete_embedding_leaves_a_current_snapshot
                emb_id w Hco Hfates Hok) as [_ ->].
    exact Hdir.
  - apply add_embedding_leaves_a_current_snapshot; assumption.
  - apply delete_embedding_leaves_a_current_snapshot; assumption.
Qed.

End Durability.

Lemma a_mutation_that_returned_survives_a_restart_witness :
  let o := Add "a" (Flat e1) None in
  let w' := perform o brute_force_store in
  coherent brute_force_store /\
  creatable (dir brute_force_store) = true /\
  fates (dir brute_force_store) = [] /\
  adds_single_vectors o /\
  succeeded o brute_force_store /\
  same_embeddings (self (restart w')) (self w') /\
  list_embedding_ids (self (restart w')) = ["a"].
Proof.
  assert (Hco : coherent brute_force_store) by (split; reflexivity).
  assert (Hone : adds_single_vectors (Add "a" (Flat e1) None)).
  { intros a [= <-]. reflexivity. }
  do 3 (split; [first [exact Hco | reflexivity] |]).
  split; [exact Hone | split; [reflexivity |]].
  destruct (a_mutation_that_returned_survives_a_restart
              (Add "a" (Flat e1) None) brute_force_store
              Hco eq_refl eq_refl Hone eq_refl) as [Hsame Hids].
  split; [exact Hsame | rewrite Hids; reflexivity].
Defined.



Lemma dict_get_set_same (d : list (string * json)) k v :
  Dict.get String.eqb (Dict.set String.eqb d k v) k = Some v.
Proof.
  induction d as [| [k' v'] rest IH]; simpl.
  - rewrite String.eqb_refl. reflexivity.
  - destruct (String.eqb k' k) eqn:E; simpl; rewrite E; [reflexivity | exact IH].
Qed.

Lemma dict_get_set_other (d : list (string * json)) k v k' :
  k' <> k ->
  Dict.get String.eqb (Dict.set String.eqb d k v) k'
  = Dict.get String.eqb d k'.
Proof.
  intros Hne. induction d as [| [k0 v0] rest IH]; simpl.
  - destruct (String.eqb_spec k k'); [congruence | reflexivity].
  - destruct (String.eqb_spec k0 k) as [E | E]; simpl.
    + subst k0. destruct (String.eqb_spec k k'); [congruence | reflexivity].
    + rewrite IH. reflexivity.
Qed.

Section Metadata.
Context {F : Type}.
Implicit Types w : World F.

Lemma spares_metadata_refl w : spares_metadata w w.
Proof. repeat split. tauto. Qed.

Lemma spares_metadata_trans (a b c : World F) :
  spares_metadata a b -> spares_metadata b c -> spares_metadata a c.
Proof.
  intros (Ha & Hm & Hf) (Hb & Hm' & Hf').
  split; [eapply same_memory_trans; eassumption |].
  split; [congruence | tauto].
Qed.

Lemma _save_index_spares_metadata : keeps (F:=F) spares_metadata _save_index.
Proof.
  unfold _save_index.
  frame spares_metadata_refl spares_metadata_trans;
    intros w; unfold store;
    destruct (fates (dir w)) as [| [] rest] eqn:E; repeat split;
    simpl; rewrite ?E; simpl; congruence.
Qed.

Lemma get_metadata_run emb_id w :
  get_metadata emb_id w
  = (Returns match metadata_json (dir w) with
             | Holds (JObj fields) =>
                 match Dict.get String.eqb fields emb_id with
                 | Some md => md
                 | None => empty_dict
                 end
             | _ => empty_dict
             end,
     w).
Proof.
  unfold get_metadata. monad_unfold.
  destruct (metadata_json (dir w)) as [| | [ | | | | | fields]] eqn:E;
    simpl; rewrite ?E; reflexivity.
Qed.

Lemma delete_embedding_spares_metadata emb_id :
  keeps (F:=F) (fun w w' => metadata_json (dir w') = metadata_json (dir w))
        (delete_embedding emb_id).
Proof.
  unfold delete_embedding, delete_numpy_fallback.
  frame (fun w : World F => eq_refl (metadata_json (dir w)))
        (fun (a b c : World F)
             (H1 : metadata_json (dir b) = metadata_json (dir a))
             (H2 : metadata_json (dir c) = metadata_json (dir b)) =>
           eq_trans H2 H1);
    try (intros w; reflexivity);
    intros w; apply _save_index_spares_metadata.
Qed.

(** X10.  [delete_embedding] never touches metadata.json: after it,
    [get_metadata] answers for every id, the deleted one included, what it
    answered before. *)
Theorem delete_embedding_never_removes_metadata emb_id other w :
  fst (get_metadata other (snd (delete_embedding emb_id w)))
  = fst (get_metadata other w).
Proof.
  rewrite !get_metadata_run. simpl.
  rewrite (delete_embedding_spares_metadata emb_id w). reflexivity.
Qed.


Lemma merge_metadata_lands emb_id md w fields :
  fates (dir w) = [] ->
  metadata_table (metadata_json (dir w)) = Some fields ->
  metadata_json (dir (snd (merge_metadata emb_id md w)))
  = Holds (JObj (Dict.set String.eqb fields emb_id md)).
Proof.
  intros Hfates Htable. unfold merge_metadata, store. monad_unfold.
  destruct (metadata_json (dir w)) as [| | [ | | | | | kv]] eqn:E;
    simpl in Htable; try discriminate; injection Htable as <-;
    simpl; rewrite ?E; simpl; rewrite Hfates; reflexivity.
Qed.

End Metadata.

(** Replaces a call of [_persist_index_async] by what it does to the
    metadata file: nothing. *)
Ltac spare_step :=
  match goal with
  | |- context [_persist_index_async ?x] =>
      let Hret := fresh "Hret" in
      let Hsp := fresh "Hsp" in
      let o := fresh "o" in
      let wx := fresh "wx" in
      pose proof (_persist_index_async_returns x) as Hret;
      pose proof (_save_index_spares_metadata x) as Hsp;
      change (_save_index x) with (_persist_index_async x) in Hsp;
      destruct (_persist_index_async x) as [o wx];
      simpl in Hret, Hsp; subst o;
      destruct Hsp as (_ & ?Hmeta & ?Hfat)
  end.

Section MetadataRoundTrip.
Context {F : Type}.
Implicit Types w : World F.

(** X9.  When metadata.json is missing or holds a dict and the writes
    complete: after an [add_embedding] with metadata that returned,
    [get_metadata] of that id returns exactly that metadata, and for every
    other id it returns what it returned before. *)
Theorem add_embedding_stores_its_metadata
    emb_id (vector : array_like F) md w fields :
  fates (dir w) = [] ->
  metadata_table (metadata_json (dir w)) = Some fields ->
  fst (add_embedding emb_id vector (Some md) w) = Returns tt ->
  let w' := snd (add_embedding emb_id vector (Some md) w) in
  get_metadata emb_id w' = (Returns md, w') /\
  forall other, other <> emb_id ->
    fst (get_metadata other w') = fst (get_metadata other w).
Proof.
  intros Hfates Htable. cbv zeta.
  assert (Hend : forall x : World F,
    fates (dir x) = [] ->
    metadata_json (dir x) = metadata_json (dir w) ->
    let x' := snd (merge_metadata emb_id md x) in
    get_metadata emb_id x' = (Returns md, x') /\
    forall other, other <> emb_id ->
      fst (get_metadata other x') = fst (get_metadata other w)).
  { intros x Hfx Hmx. cbv zeta. rewrite <- Hmx in Htable.
    pose proof (merge_metadata_lands emb_id md x fields Hfx Htable) as Hl.
    split.
    - rewrite get_metadata_run, Hl, dict_get_set_same. reflexivity.
    - intros other Hne. rewrite !get_metadata_run. simpl.
      rewrite Hl, dict_get_set_other by exact Hne.
      rewrite <- Hmx.
      destruct (metadata_json (dir x)) as [| | [ | | | | | kv]];
        simpl in Htable; try discriminate; injection Htable as <-;
        reflexivity. }
  unfold add_embedding. monad_unfold.
  destruct (_HAS_NUMPY (runtime w)) eqn:Hnp; simpl; [| discriminate].
  destruct (as_2d vector) as [vec |] eqn:Hvec; simpl; [| discriminate].
  destruct (ncols vec =? embedding_dim (self w)) eqn:Hdim; simpl;
    [| discriminate].
  destruct (_use_faiss (self w) && _faiss (self w)); simpl.
  - destruct (_faiss_index (self w)) as [index |] eqn:Hidx; simpl.
    all: rewrite ?Hidx; simpl.
    all: destruct (int64_array (_next_int_id (self w))); simpl;
           [| discriminate].
    all: match goal with |- context [add_with_ids ?i ?x ?l] =>
           destruct (add_with_ids i x l); simpl; [| discriminate] end.
    all: spare_step; simpl; intros _.
    all: apply Hend; [apply Hfat; exact Hfates | exact Hmeta].
  - destruct (_emb_matrix (self w)) as [a |] eqn:Ha; simpl.
    1: destruct (vstack a vec); simpl; [| discriminate].
    all: spare_step; simpl; intros _.
    all: apply Hend; [apply Hfat; exact Hfates | exact Hmeta].
Qed.

End MetadataRoundTrip.

Lemma add_embedding_stores_its_metadata_witness :
  let md := JObj [("source", JStr "nmap")] in
  let w' := snd (add_embedding "a" (Flat e1) (Some md) brute_force_store) in
  fates (dir brute_force_store) = [] /\
  metadata_table (metadata_json (dir brute_force_store)) = Some [] /\
  fst (add_embedding "a" (Flat e1) (Some md) brute_force_store)
  = Returns tt /\
  get_metadata "a" w' = (Returns md, w') /\
  forall other, other <> "a" ->
    fst (get_metadata other w') = fst (get_metadata other brute_force_store).
Proof.
  do 3 (split; [reflexivity |]).
  apply (add_embedding_stores_its_metadata
           "a" (Flat e1) (JObj [("source", JStr "nmap")])
           brute_force_store [] eq_refl eq_refl eq_refl).
Defined.



Lemma Forall_keys_set (t : list (Z * string)) k v c :
  Forall (fun kv => fst kv < c) t -> k < c ->
  Forall (fun kv => fst kv < c) (Dict.set Z.eqb t k v).
Proof.
  intros Ht Hk. induction Ht as [| [k' v'] rest Hx Hrest IH]; simpl.
  - constructor; [exact Hk | constructor].
  - destruct (k' =? k); constructor; assumption.
Qed.

Lemma Forall_keys_pop (t : list (Z * string)) k c :
  Forall (fun kv => fst kv < c) t ->
  Forall (fun kv => fst kv < c) (Dict.pop Z.eqb t k).
Proof.
  intros Ht. induction Ht as [| [k' v'] rest Hx Hrest IH]; simpl.
  - constructor.
  - destruct (k' =? k); [exact Hrest | constructor; assumption].
Qed.

Lemma Forall_keys_weaken (t : list (Z * string)) c c' :
  c <= c' ->
  Forall (fun kv => fst kv < c) t -> Forall (fun kv => fst kv < c') t.
Proof.
  intros Hle Ht. eapply Forall_impl; [| exact Ht]. simpl. intros. lia.
Qed.

Lemma keys_below_not_bound (t : list (Z * string)) c :
  Forall (fun kv => fst kv < c) t -> ~ In c (map fst t).
Proof.
  intros Ht Hin. apply in_map_iff in Hin. destruct Hin as (kv & E & Hin).
  rewrite Forall_forall in Ht. specialize (Ht kv Hin). lia.
Qed.

Section Counter.
Context {F : Type}.
Implicit Types w : World F.

(** What one mutation does to the mapping and the counter. *)
Lemma perform_counter (o : mutation F) w :
  keys_below_counter (self w) ->
  keys_below_counter (self (perform o w)) /\
  _next_int_id (self w) <= _next_int_id (self (perform o w)).
Proof.
  intros Hk. unfold keys_below_counter in *. destruct o as [emb_id vector metadata | emb_id]; simpl.
  - unfold add_embedding. monad_unfold.
    destruct (_HAS_NUMPY (runtime w)) eqn:Hnp; simpl; [| split; [exact Hk | lia]].
    destruct (as_2d vector) as [vec |] eqn:Hvec; simpl; [| split; [exact Hk | lia]].
    destruct (ncols vec =? embedding_dim (self w)) eqn:Hdim; simpl;
      [| split; [exact Hk | lia]].
    destruct (_use_faiss (self w) && _faiss (self w)); simpl.
    + destruct (_faiss_index (self w)) as [index |] eqn:Hidx; simpl.
      all: rewrite ?Hidx; simpl.
      all: destruct (int64_array (_next_int_id (self w))); simpl.
      all: try match goal with |- context [add_with_ids ?i ?x ?l] =>
             destruct (add_with_ids i x l); simpl end.
      all: try persist_step; simpl.
      all: destruct metadata; simpl; try merge_step; simpl.
      all: rewrite ?Hself0, ?Hself; simpl.
      all: split; [| lia].
      all: apply Forall_keys_set; [| lia].
      all: eapply Forall_keys_weaken; [| exact Hk]; lia.
    + destruct (_emb_matrix (self w)) as [a |] eqn:Ha; simpl.
      1: destruct (vstack a vec); simpl.
      all: try persist_step; simpl.
      all: destruct metadata; simpl; try merge_step; simpl.
      all: rewrite ?Hself0, ?Hself; simpl.
      all: split; [exact Hk | lia].
  - unfold delete_embedding, delete_numpy_fallback. monad_unfold.
    destruct (_use_faiss (self w)), (_faiss_index (self w)) as [index |]; simpl.
    1: destruct (find_key (_intid_to_str (self w)) emb_id) as [k |]; simpl;
         [| split; [exact Hk | lia]].
    1: destruct (_HAS_NUMPY (runtime w)); simpl;
        [destruct (int64_array k); simpl;
           [destruct (has_remove_ids (runtime w)); simpl | ] | ];
        persist_step; simpl; rewrite Hself; simpl;
        (split; [apply Forall_keys_pop; exact Hk | lia]).
    all: destruct (index_of emb_id (_emb_ids (self w))) as [idx |]; simpl;
           [| split; [exact Hk | lia]].
    all: destruct (_emb_matrix (self w)) as [a |]; simpl.
    all: try (destruct (_HAS_NUMPY (runtime w)); simpl;
              [| split; [exact Hk | lia]]).
    all: try (destruct (np_delete a idx); simpl; [| split; [exact Hk | lia]]).
    all: persist_step; simpl; rewrite Hself; simpl.
    all: split; [exact Hk | lia].
Qed.

(** X11.  Through every history of adds and deletes the counter
    [_next_int_id] never decreases and every integer id bound in the
    mapping stays below it: an integer id, once handed out, is never handed
    out again, also after its string id was deleted. *)
Theorem integer_ids_are_never_handed_out_twice history w :
  keys_below_counter (self w) ->
  keys_below_counter (self (replay history w)) /\
  _next_int_id (self w) <= _next_int_id (self (replay history w)).
Proof.
  revert w. induction history as [| o rest IH]; intros w Hk; simpl.
  - split; [exact Hk | lia].
  - destruct (perform_counter o w Hk) as [Hk' Hle].
    destruct (IH (perform o w) Hk') as [Hk'' Hle'].
    split; [exact Hk'' | lia].
Qed.

(** X12.  With the FAISS backend and every key below the counter: an
    [add_embedding] that passes the dimension test binds the current
    counter value to the id at the end of the mapping and advances the
    counter by one, so the id goes last in [list_embedding_ids]; this holds
    whether or not the call then returns. *)
Theorem an_indexed_add_binds_the_counter_value
    emb_id vector metadata w vec :
  _HAS_NUMPY (runtime w) = true ->
  _use_faiss (self w) = true ->
  _faiss (self w) = true ->
  as_2d vector = Some vec ->
  ncols vec = embedding_dim (self w) ->
  keys_below_counter (self w) ->
  let w' := snd (add_embedding emb_id vector metadata w) in
  _intid_to_str (self w')
  = _intid_to_str (self w) ++ [(_next_int_id (self w), emb_id)] /\
  _next_int_id (self w') = _next_int_id (self w) + 1 /\
  list_embedding_ids (self w') = list_embedding_ids (self w) ++ [emb_id].
Proof.
  intros Hnp Huse Hfa Hvec Hdim Hk. cbv zeta.
  pose proof (set_new_key (_intid_to_str (self w)) (_next_int_id (self w))
                emb_id (keys_below_not_bound _ _ Hk)) as Hset.
  unfold add_embedding, list_embedding_ids. monad_unfold.
  rewrite Hnp. simpl. rewrite Hvec. simpl. rewrite Hdim, Z.eqb_refl. simpl.
  rewrite Huse, Hfa. simpl.
  destruct (_faiss_index (self w)) as [index |] eqn:Hidx; simpl.
  all: rewrite ?Hidx; simpl.
  all: destruct (int64_array (_next_int_id (self w))); simpl.
  all: try match goal with |- context [add_with_ids ?i ?x ?l] =>
         destruct (add_with_ids i x l); simpl end.
  all: try persist_step; simpl.
  all: destruct metadata; simpl; try merge_step; simpl.
  all: rewrite ?Hself0, ?Hself; simpl; rewrite ?Huse, Hset.
  all: unfold Dict.values; rewrite map_app; repeat split.
Qed.

End Counter.

Lemma integer_ids_are_never_handed_out_twice_witness :
  keys_below_counter (self indexed_store) /\
  keys_below_counter (self (replay a_replaced indexed_store)) /\
  _next_int_id (self indexed_store)
  <= _next_int_id (self (replay a_replaced indexed_store)).
Proof.
  assert (H : keys_below_counter (self indexed_store)) by constructor.
  split; [exact H |].
  apply (integer_ids_are_never_handed_out_twice a_replaced indexed_store H).
Defined.

Lemma an_indexed_add_binds_the_counter_value_witness :
  let w := indexed_with_a in
  let w' := snd (add_embedding "b" (Flat e2) None w) in
  _HAS_NUMPY (runtime w) = true /\
  _use_faiss (self w) = true /\
  _faiss (self w) = true /\
  as_2d (Flat e2) = Some {| ncols := 4; rows := [e2] |} /\
  ncols {| ncols := 4; rows := [e2] |} = embedding_dim (self w) /\
  keys_below_counter (self w) /\
  _intid_to_str (self w') = _intid_to_str (self w) ++ [(2, "b")] /\
  _next_int_id (self w') = 2 + 1 /\
  list_embedding_ids (self w') = list_embedding_ids (self w) ++ ["b"].
Proof.
  assert (H : keys_below_counter (self indexed_with_a)).
  { constructor; [reflexivity | constructor]. }
  do 5 (split; [reflexivity |]). split; [exact H |].
  apply (an_indexed_add_binds_the_counter_value
           "b" (Flat e2) None indexed_with_a {| ncols := 4; rows := [e2] |}
           eq_refl eq_refl eq_refl eq_refl eq_refl H).
Defined.

Lemma combine_drop_at {A B} idx (l1 : list A) (l2 : list B) :
  combine (drop_at idx l1) (drop_at idx l2) = drop_at idx (combine l1 l2).
Proof.
  revert l1 l2. induction idx as [| i IH]; intros [| x l1] [| y l2]; simpl;
    first [ reflexivity
          | destruct l1; reflexivity
          | destruct (drop_at i l1); reflexivity
          | rewrite IH; reflexivity ].
Qed.

Lemma combine_snoc {A B} (l1 : list A) (l2 : list B) x y :
  length l1 = length l2 ->
  combine (l1 ++ [x]) (l2 ++ [y]) = combine l1 l2 ++ [(x, y)].
Proof.
  revert l2. induction l1 as [| a l1 IH]; intros [| b l2] H; simpl in *;
    try discriminate; [reflexivity |].
  rewrite IH by lia. reflexivity.
Qed.

Lemma get_drop_at_other {V} (ids : list string) (vs : list V) id idx other :
  index_of id ids = Some idx ->
  other <> id ->
  Dict.get String.eqb (drop_at idx (combine ids vs)) other
  = Dict.get String.eqb (combine ids vs) other.
Proof.
  revert vs idx. induction ids as [| y rest IH]; intros vs idx; simpl;
    [discriminate |].
  destruct (String.eqb_spec y id) as [-> | Hy].
  - intros [= <-] Hne. destruct vs as [| v vs]; simpl; [reflexivity |].
    destruct (String.eqb_spec id other); [congruence | reflexivity].
  - destruct (index_of id rest) as [i |] eqn:Hi; [| discriminate].
    intros [= <-] Hne. destruct vs as [| v vs]; simpl; [reflexivity |].
    destruct (String.eqb y other); [reflexivity |].
    apply IH; [reflexivity | exact Hne].
Qed.

Lemma get_snoc {V} (d : list (string * V)) k v other :
  Dict.get String.eqb (d ++ [(k, v)]) other
  = match Dict.get String.eqb d other with
    | Some x => Some x
    | None => if String.eqb k other then Some v else None
    end.
Proof.
  induction d as [| [k' v'] rest IH]; simpl; [reflexivity |].
  destruct (String.eqb k' other); [reflexivity | exact IH].
Qed.

Section BruteForce.
Context {F : Type}.
Implicit Types w : World F.

(** X13.  With the numpy backend on a coherent store: an
    [add_embedding] of a flat vector that returned has appended one pair
    after all the pairs held: the id with a row of as many entries as the
    vector, which is [embedding_dim].  Every id that was held, the added id
    included, stands for the vector it stood for (adding an id again does
    not replace its vector), and so does every other id; an id that was not
    held stands for the new row. *)
Theorem a_brute_force_add_appends_one_pair emb_id (v : list F) metadata w :
  coherent w ->
  _use_faiss (self w) = false ->
  fst (add_embedding emb_id (Flat v) metadata w) = Returns tt ->
  let w' := snd (add_embedding emb_id (Flat v) metadata w) in
  exists row,
    length row = length v /\
    Z.of_nat (length row) = embedding_dim (self w) /\
    pairs (self w') = pairs (self w) ++ [(emb_id, row)] /\
    (forall held, In held (list_embedding_ids (self w)) ->
       vector_of (self w') held = vector_of (self w) held) /\
    (forall other, other <> emb_id ->
       vector_of (self w') other = vector_of (self w) other) /\
    (~ In emb_id (list_embedding_ids (self w)) ->
     vector_of (self w') emb_id = Some row).
Proof.
  intros Hcoh Huse. pose proof Hcoh as [Hfa Hco]. cbv zeta.
  assert (Hheld : forall held, In held (list_embedding_ids (self w)) ->
            Dict.get String.eqb (pairs (self w)) held <> None).
  { intros held. unfold list_embedding_ids, pairs. rewrite Huse in *.
    destruct (_emb_matrix (self w)) as [a |].
    - destruct Hco as [_ Hlen]. revert Hlen.
      generalize (rows a). clear.
      induction (_emb_ids (self w)) as [| y rest IH]; intros [| r rs];
        simpl; try discriminate; [tauto |].
      intros Hlen [-> | Hin].
      + rewrite String.eqb_refl. discriminate.
      + destruct (String.eqb y held); [discriminate |].
        apply IH; [lia | exact Hin].
    - rewrite Hco. intros []. }
  assert (Hgoal : forall m' : Memory F,
    Z.of_nat (length v) = embedding_dim (self w) ->
    pairs m' = pairs (self w) ++ [(emb_id, v)] ->
    exists row,
      length row = length v /\
      Z.of_nat (length row) = embedding_dim (self w) /\
      pairs m' = pairs (self w) ++ [(emb_id, row)] /\
      (forall held, In held (list_embedding_ids (self w)) ->
         vector_of m' held = vector_of (self w) held) /\
      (forall other, other <> emb_id ->
         vector_of m' other = vector_of (self w) other) /\
      (~ In emb_id (list_embedding_ids (self w)) ->
       vector_of m' emb_id = Some row)).
  { intros m' Hdim Hp. exists v.
    split; [reflexivity | split; [exact Hdim | split; [exact Hp |]]].
    unfold vector_of. rewrite Hp. split; [| split].
    - intros held Hin. rewrite get_snoc. specialize (Hheld held Hin).
      destruct (Dict.get String.eqb (pairs (self w)) held);
        [reflexivity | congruence].
    - intros other Hne. rewrite get_snoc.
      destruct (Dict.get String.eqb (pairs (self w)) other); [reflexivity |].
      destruct (String.eqb_spec emb_id other); [congruence | reflexivity].
    - intros Hnew. rewrite get_snoc, String.eqb_refl.
      destruct (Dict.get String.eqb (pairs (self w)) emb_id) eqn:E;
        [| reflexivity].
      exfalso. apply Hnew. unfold list_embedding_ids. rewrite Huse.
      unfold pairs in E. clear - E.
      revert E. generalize (match _emb_matrix (self w) with
                            | Some a => rows a | None => [] end).
      induction (_emb_ids (self w)) as [| y rest IH]; intros [| r rs];
        simpl; try discriminate.
      destruct (String.eqb_spec y emb_id); [left; assumption |].
      intros E. right. eapply IH. exact E. }
  clear Hheld Hcoh.
  unfold add_embedding. monad_unfold.
  destruct (_HAS_NUMPY (runtime w)) eqn:Hnp; simpl; [| discriminate].
  destruct (Z.eqb_spec (Z.of_nat (length v)) (embedding_dim (self w)))
    as [Hdim | Hdim]; simpl; [| discriminate].
  rewrite Huse in *. simpl.
  destruct (_emb_matrix (self w)) as [a |] eqn:Ha; simpl.
  - destruct Hco as [_ Hlen]. unfold vstack. simpl.
    destruct (ncols a =? Z.of_nat (length v)); simpl; [| discriminate].
    persist_step. simpl.
    destruct metadata; simpl; try merge_step; simpl; intros _;
      apply Hgoal; try exact Hdim; rewrite ?Hself0, Hself; unfold pairs;
      simpl; rewrite Ha; apply combine_snoc; symmetry; exact Hlen.
  - persist_step. simpl.
    destruct metadata; simpl; try merge_step; simpl; intros _;
      apply Hgoal; try exact Hdim; rewrite ?Hself0, Hself; unfold pairs;
      simpl; rewrite Ha, Hco; reflexivity.
Qed.


(** X14.  With the numpy backend on a coherent store:
    [delete_embedding] of an id that is held removes the id and the matrix
    row at the same position, the first where the id occurs; every other
    id stands for the vector it stood for. *)
Theorem a_brute_force_delete_removes_one_pair emb_id w :
  coherent w ->
  _use_faiss (self w) = false ->
  In emb_id (list_embedding_ids (self w)) ->
  let w' := snd (delete_embedding emb_id w) in
  exists idx,
    index_of emb_id (_emb_ids (self w)) = Some idx /\
    pairs (self w') = drop_at idx (pairs (self w)) /\
    forall other, other <> emb_id ->
      vector_of (self w') other = vector_of (self w) other.
Proof.
  intros [Hfa Hco] Huse Hin. cbv zeta.
  unfold list_embedding_ids in Hin. rewrite Huse in *.
  destruct (index_of_present _ _ Hin) as (idx & Hidx & Hlt & _).
  exists idx. split; [exact Hidx |].
  assert (Hgoal : forall m' : Memory F,
    pairs m' = drop_at idx (pairs (self w)) ->
    pairs m' = drop_at idx (pairs (self w)) /\
    forall other, other <> emb_id ->
      vector_of m' other = vector_of (self w) other).
  { intros m' Hp. split; [exact Hp |]. intros other Hne.
    unfold vector_of. rewrite Hp. unfold pairs.
    apply get_drop_at_other with (id := emb_id); assumption. }
  unfold delete_embedding, delete_numpy_fallback. monad_unfold.
  rewrite Huse.
  destruct (_emb_matrix (self w)) as [a |] eqn:Ha.
  - destruct Hco as [Hnp Hlen].
    assert (Hdel : np_delete a idx
                   = Some {| ncols := ncols a;
                             rows := drop_at idx (rows a) |}).
    { unfold np_delete. rewrite Hlen. apply Nat.ltb_lt in Hlt.
      rewrite Hlt. reflexivity. }
    destruct (_faiss_index (self w)); simpl; rewrite Hidx; simpl;
      rewrite Ha; simpl; rewrite Hnp; simpl; rewrite Hdel; simpl;
      persist_step; simpl; apply Hgoal; rewrite Hself; unfold pairs; simpl;
      rewrite Ha; apply combine_drop_at.
  - rewrite Hco in Hin. destruct Hin.
Qed.

(** ** The shape of what is held *)

Lemma as_2d_rows (x : array_like F) vec :
  as_2d x = Some vec ->
  Forall (fun r => Z.of_nat (length r) = ncols vec) (rows vec).
Proof.
  destruct x as [v | [| v vs]]; simpl.
  - intros [= <-]. simpl. repeat constructor.
  - intros [= <-]. simpl. repeat constructor.
  - destruct (forallb _ vs) eqn:E; [| discriminate].
    intros [= <-]. simpl. constructor; [reflexivity |].
    rewrite forallb_forall in E. apply Forall_forall. intros r Hr.
    specialize (E r Hr). apply Nat.eqb_eq in E. rewrite E. reflexivity.
Qed.

Lemma Forall_drop_at {A} (P : A -> Prop) idx (l : list A) :
  Forall P l -> Forall P (drop_at idx l).
Proof.
  intros H. apply Forall_forall. intros x Hx.
  rewrite Forall_forall in H. apply H. eapply drop_at_subset. exact Hx.
Qed.

Lemma Forall_combine_snd {A B} (P : B -> Prop) (l1 : list A) (l2 : list B) :
  Forall P l2 -> Forall (fun e => P (snd e)) (combine l1 l2).
Proof.
  intros H. apply Forall_forall. intros [a b] Hin.
  apply in_combine_r in Hin. rewrite Forall_forall in H. apply H. exact Hin.
Qed.

Ltac shape_done :=
  repeat match goal with
  | H : _ /\ _ |- _ => destruct H
  | |- _ /\ _ => split
  | |- Forall _ (_ ++ _) => apply Forall_app
  | |- Forall _ [] => constructor
  | |- Forall _ (drop_at _ _) => apply Forall_drop_at
  | |- True => exact I
  end; try assumption; try reflexivity.

Lemma perform_well_shaped (o : mutation F) w :
  well_shaped (self w) -> well_shaped (self (perform o w)).
Proof.
  intros Hall. destruct o as [emb_id vector metadata | emb_id]; simpl.
  - unfold add_embedding. monad_unfold.
    destruct (_HAS_NUMPY (runtime w)) eqn:Hnp; simpl; [| exact Hall].
    destruct (as_2d vector) as [vec |] eqn:Hvec; simpl; [| exact Hall].
    pose proof (as_2d_rows _ _ Hvec) as Hrows.
    destruct (Z.eqb_spec (ncols vec) (embedding_dim (self w))) as [Hdim | _];
      simpl; [| exact Hall].
    rewrite Hdim in Hrows.
    assert (Hcomb : forall ids : list Z,
      Forall (fun e : Z * list F =>
                Z.of_nat (length (snd e)) = embedding_dim (self w))
             (combine ids (rows vec))).
    { intros ids.
      apply Forall_combine_snd
        with (P := fun r => Z.of_nat (length r) = embedding_dim (self w)).
      exact Hrows. }
    destruct Hall as [Hmat Hind]. unfold well_shaped.
    destruct (_use_faiss (self w) && _faiss (self w)); simpl.
    + destruct (_faiss_index (self w)) as [index |] eqn:Hidx; simpl.
      all: rewrite ?Hidx; simpl.
      all: destruct (int64_array (_next_int_id (self w))); simpl.
      all: try match goal with |- context [add_with_ids ?i ?x ?l] =>
             unfold add_with_ids;
             destruct ((ncols x =? index_d i)
                       && Nat.eqb (length l) (length (rows x))); simpl end.
      all: try persist_step; simpl.
      all: destruct metadata; simpl; try merge_step; simpl.
      all: rewrite ?Hself0, ?Hself; simpl; rewrite ?Hidx.
      all: shape_done; apply Hcomb.
    + destruct (_emb_matrix (self w)) as [a |] eqn:Ha; simpl.
      1: unfold vstack; destruct (ncols a =? ncols vec); simpl.
      all: try persist_step; simpl.
      all: destruct metadata; simpl; try merge_step; simpl.
      all: rewrite ?Hself0, ?Hself; simpl; rewrite ?Ha.
      all: shape_done.
  - unfold delete_embedding, delete_numpy_fallback. monad_unfold.
    destruct Hall as [Hmat Hind]. unfold well_shaped.
    destruct (_use_faiss (self w)),
      (_faiss_index (self w)) as [index |] eqn:Hidx; simpl.
    1: destruct (find_key (_intid_to_str (self w)) emb_id) as [k |]; simpl;
         [| rewrite Hidx; split; assumption].
    1: destruct (_HAS_NUMPY (runtime w)); simpl;
        [destruct (int64_array k); simpl;
           [destruct (has_remove_ids (runtime w)); simpl | ] | ];
        persist_step; simpl; rewrite Hself; simpl; rewrite ?Hidx;
        shape_done;
        apply Forall_forall; intros e Hin; apply filter_In in Hin;
        match goal with He : Forall _ (entries _) |- _ =>
          rewrite Forall_forall in He; apply He; tauto end.
    all: destruct (index_of emb_id (_emb_ids (self w))) as [idx |]; simpl;
           [| rewrite ?Hidx; split; assumption].
    all: destruct (_emb_matrix (self w)) as [a |] eqn:Ha; simpl.
    all: try (destruct (_HAS_NUMPY (runtime w)); simpl;
              [| rewrite ?Hidx, ?Ha; split; assumption]).
    all: try (unfold np_delete;
              destruct (Nat.ltb idx (length (rows a))); simpl;
              [| rewrite ?Hidx, ?Ha; split; assumption]).
    all: persist_step; simpl; rewrite Hself; simpl; rewrite ?Hidx, ?Ha.
    all: shape_done.
Qed.

(** X15.  Through every history of adds (of any argument, flat or
    nested) and deletes, every row of the matrix and every vector of the
    index has [embedding_dim] entries, and the matrix and the index keep
    that dimension. *)
Theorem every_row_held_has_the_configured_dimension history w :
  well_shaped (self w) ->
  well_shaped (self (replay history w)).
Proof.
  revert w. induction history as [| o rest IH]; intros w H; simpl;
    [exact H |].
  apply IH. apply perform_well_shaped. exact H.
Qed.

End BruteForce.

Lemma a_brute_force_add_appends_one_pair_witness :
  let w := brute_force_with_a in
  let w' := snd (add_embedding "a" (Flat e2) None w) in
  coherent w /\
  _use_faiss (self w) = false /\
  fst (add_embedding "a" (Flat e2) None w) = Returns tt /\
  list_embedding_ids (self w') = ["a"; "a"] /\
  vector_of (self w') "a" = vector_of (self w) "a".
Proof.
  assert (Hco : coherent brute_force_with_a).
  { split; [reflexivity | split; reflexivity]. }
  split; [exact Hco |]. do 3 (split; [reflexivity |]).
  destruct (a_brute_force_add_appends_one_pair
              "a" e2 None brute_force_with_a Hco eq_refl eq_refl)
    as (row & _ & _ & _ & Hheld & _).
  apply Hheld. left. reflexivity.
Defined.

Lemma a_brute_force_delete_removes_one_pair_witness :
  let w := replay a_then_b brute_force_store in
  let w' := snd (delete_embedding "a" w) in
  coherent w /\
  _use_faiss (self w) = false /\
  In "a" (list_embedding_ids (self w)) /\
  exists idx,
    index_of "a" (_emb_ids (self w)) = Some idx /\
    pairs (self w') = drop_at idx (pairs (self w)) /\
    forall other, other <> "a" ->
      vector_of (self w') other = vector_of (self w) other.
Proof.
  assert (Hco : coherent (replay a_then_b brute_force_store)).
  { split; [reflexivity | split; reflexivity]. }
  assert (Hin : In "a" (list_embedding_ids
                          (self (replay a_then_b brute_force_store))))
    by (left; reflexivity).
  split; [exact Hco | split; [reflexivity | split; [exact Hin |]]].
  apply (a_brute_force_delete_removes_one_pair
           "a" (replay a_then_b brute_force_store) Hco eq_refl Hin).
Defined.

Lemma every_row_held_has_the_configured_dimension_witness :
  well_shaped (self brute_force_store) /\
  well_shaped (self (replay mixed_history brute_force_store)).
Proof.
  assert (H : well_shaped (self brute_force_store)) by (split; exact I).
  split; [exact H |].
  apply (every_row_held_has_the_configured_dimension
           mixed_history brute_force_store H).
Defined.

Section Construction.
Context {F : Type}.
Implicit Types w : World F.





End Construction.

Lemma values_set_bound (t : list (Z * string)) k v :
  In v (Dict.values (Dict.set Z.eqb t k v)).
Proof.
  induction t as [| [k' v'] rest IH]; simpl; [left; reflexivity |].
  destruct (k' =? k); simpl; [left; reflexivity | right; exact IH].
Qed.

Section Rejections.
Context {F : Type}.
Implicit Types w : World F.

(** X16.  With the numpy backend, when the matrix held (loaded from an
    older snapshot) has another number of columns than [embedding_dim]:
    every [add_embedding] of a vector of the configured dimension raises
    [ValueError] and changes nothing. *)
Theorem a_matrix_of_another_width_rejects_every_add
    emb_id vector metadata w vec a :
  _HAS_NUMPY (runtime w) = true ->
  _use_faiss (self w) = false ->
  as_2d vector = Some vec ->
  ncols vec = embedding_dim (self w) ->
  _emb_matrix (self w) = Some a ->
  ncols a <> embedding_dim (self w) ->
  add_embedding emb_id vector metadata w = (Raises ValueError, w).
Proof.
  intros Hnp Huse Hvec Hdim Ha Hne.
  unfold add_embedding. monad_unfold.
  rewrite Hnp. simpl. rewrite Hvec. simpl. rewrite Hdim, Z.eqb_refl. simpl.
  rewrite Huse. simpl. rewrite Ha. simpl. unfold vstack.
  rewrite Hdim. apply Z.eqb_neq in Hne. rewrite Hne. reflexivity.
Qed.

(** X17.  With the FAISS backend, when the index held has another
    dimension than [embedding_dim]: an [add_embedding] of a vector of the
    configured dimension raises [AssertionError] and writes nothing, yet
    the counter has advanced and the id is listed by
    [list_embedding_ids], with no vector behind it. *)
Theorem an_add_the_index_rejects_still_lists_its_id
    emb_id vector metadata w vec index :
  _HAS_NUMPY (runtime w) = true ->
  _use_faiss (self w) = true ->
  _faiss (self w) = true ->
  as_2d vector = Some vec ->
  ncols vec = embedding_dim (self w) ->
  _faiss_index (self w) = Some index ->
  index_d index <> embedding_dim (self w) ->
  - 2 ^ 63 <= _next_int_id (self w) < 2 ^ 63 ->
  let run := add_embedding emb_id vector metadata w in
  fst run = Raises AssertionError /\
  dir (snd run) = dir w /\
  _faiss_index (self (snd run)) = Some index /\
  _next_int_id (self (snd run)) = _next_int_id (self w) + 1 /\
  In emb_id (list_embedding_ids (self (snd run))).
Proof.
  intros Hnp Huse Hfa Hvec Hdim Hidx Hne Hrange. cbv zeta.
  assert (Hids : int64_array (_next_int_id (self w))
                 = Some [_next_int_id (self w)]).
  { unfold int64_array.
    destruct (Z.leb_spec (- 2 ^ 63) (_next_int_id (self w))); [| lia].
    destruct (Z.ltb_spec (_next_int_id (self w)) (2 ^ 63)); [| lia].
    reflexivity. }
  assert (Hrej : add_with_ids index vec [_next_int_id (self w)] = None).
  { unfold add_with_ids. rewrite Hdim.
    destruct (Z.eqb_spec (embedding_dim (self w)) (index_d index));
      [congruence | reflexivity]. }
  unfold add_embedding, list_embedding_ids. monad_unfold.
  rewrite Hnp. simpl. rewrite Hvec. simpl. rewrite Hdim, Z.eqb_refl. simpl.
  rewrite Huse, Hfa. simpl. rewrite Hidx. simpl. rewrite Hids. simpl.
  rewrite Hrej. simpl. rewrite Huse, Hidx. repeat split.
  apply values_set_bound.
Qed.

(** X18.  With the numpy backend, when the matrix has no row at the
    position of the id (fewer rows than ids): [delete_embedding] of that id
    raises [IndexError] and changes nothing; the id stays listed. *)
Theorem a_delete_past_the_last_row_raises_and_removes_nothing
    emb_id w a idx :
  _HAS_NUMPY (runtime w) = true ->
  _use_faiss (self w) = false ->
  _emb_matrix (self w) = Some a ->
  index_of emb_id (_emb_ids (self w)) = Some idx ->
  (length (rows a) <= idx)%nat ->
  delete_embedding emb_id w = (Raises IndexError, w).
Proof.
  intros Hnp Huse Ha Hidx Hshort.
  unfold delete_embedding, delete_numpy_fallback. monad_unfold.
  rewrite Huse.
  assert (Hdel : np_delete a idx = None).
  { unfold np_delete. apply Nat.ltb_ge in Hshort. rewrite Hshort.
    reflexivity. }
  destruct (_faiss_index (self w)); simpl; rewrite Hidx; simpl;
    rewrite Ha; simpl; rewrite Hnp; simpl; rewrite Hdel; reflexivity.
Qed.

End Rejections.

Lemma a_matrix_of_another_width_rejects_every_add_witness :
  let w := rewidthed_store in
  let a := {| ncols := 4; rows := [e1] |} in
  let vec := {| ncols := 3; rows := [[1; 0; 0]] |} in
  _HAS_NUMPY (runtime w) = true /\
  _use_faiss (self w) = false /\
  as_2d (Flat [1; 0; 0]) = Some vec /\
  ncols vec = embedding_dim (self w) /\
  _emb_matrix (self w) = Some a /\
  ncols a <> embedding_dim (self w) /\
  add_embedding "b" (Flat [1; 0; 0]) None w = (Raises ValueError, w).
Proof.
  assert (Hne : ncols {| ncols := 4; rows := [e1] |}
                <> embedding_dim (self rewidthed_store))
    by (simpl; discriminate).
  do 5 (split; [reflexivity |]). split; [exact Hne |].
  apply (a_matrix_of_another_width_rejects_every_add
           "b" (Flat [1; 0; 0]) None rewidthed_store
           {| ncols := 3; rows := [[1; 0; 0]] |}
           {| ncols := 4; rows := [e1] |}
           eq_refl eq_refl eq_refl eq_refl eq_refl Hne).
Defined.

Lemma an_add_the_index_rejects_still_lists_its_id_witness :
  let w := rewidthed_index in
  let index := {| index_d := 4; entries := [(1, e1)] |} in
  let vec := {| ncols := 3; rows := [[1; 0; 0]] |} in
  let run := add_embedding "b" (Flat [1; 0; 0]) None w in
  _HAS_NUMPY (runtime w) = true /\
  _use_faiss (self w) = true /\
  _faiss (self w) = true /\
  as_2d (Flat [1; 0; 0]) = Some vec /\
  ncols vec = embedding_dim (self w) /\
  _faiss_index (self w) = Some index /\
  index_d index <> embedding_dim (self w) /\
  - 2 ^ 63 <= _next_int_id (self w) < 2 ^ 63 /\
  fst run = Raises AssertionError /\
  list_embedding_ids (self (snd run)) = ["a"; "b"].
Proof.
  assert (Hne : index_d {| index_d := 4; entries := [(1, e1)] |}
                <> embedding_dim (self rewidthed_index))
    by (simpl; discriminate).
  assert (Hrange : - 2 ^ 63 <= _next_int_id (self rewidthed_index) < 2 ^ 63)
    by (split; [discriminate | reflexivity]).
  do 6 (split; [reflexivity |]).
  split; [exact Hne | split; [exact Hrange |]].
  destruct (an_add_the_index_rejects_still_lists_its_id
              "b" (Flat [1; 0; 0]) None rewidthed_index
              {| ncols := 3; rows := [[1; 0; 0]] |}
              {| index_d := 4; entries := [(1, e1)] |}
              eq_refl eq_refl eq_refl eq_refl eq_refl eq_refl Hne Hrange)
    as [Hraises _].
  split; [exact Hraises | reflexivity].
Defined.

Lemma a_delete_past_the_last_row_raises_and_removes_nothing_witness :
  let w := misaligned_store in
  let a := {| ncols := 4; rows := [e1] |} in
  _HAS_NUMPY (runtime w) = true /\
  _use_faiss (self w) = false /\
  _emb_matrix (self w) = Some a /\
  index_of "b" (_emb_ids (self w)) = Some 1%nat /\
  (length (rows a) <= 1)%nat /\
  delete_embedding "b" w = (Raises IndexError, w).
Proof.
  assert (Hle : (length (rows {| ncols := 4; rows := [e1] |}) <= 1)%nat)
    by (simpl; lia).
  do 4 (split; [reflexivity |]). split; [exact Hle |].
  apply (a_delete_past_the_last_row_raises_and_removes_nothing
           "b" misaligned_store {| ncols := 4; rows := [e1] |} 1%nat
           eq_refl eq_refl eq_refl eq_refl Hle).
Defined.

(** * Properties of the risk heuristic *)

Local Open Scope string_scope.

Section RiskGate.
Import Agent.

Lemma starts_with_spec k s :
  starts_with k s = true <-> exists q, s = k ++ q.
Proof.
  revert s. induction k as [| c k IH]; intros s; simpl.
  - split; [intros _; exists s; reflexivity | reflexivity].
  - destruct s as [| d s].
    + split; [discriminate | intros [q H]; discriminate].
    + rewrite andb_true_iff, IH. split.
      * intros [E [q ->]]. apply Ascii.eqb_eq in E. subst d.
        exists q. reflexivity.
      * intros [q H]. injection H as -> ->.
        split; [apply Ascii.eqb_refl | exists q; reflexivity].
Qed.

(** [occurs_in] is the substring test. *)
Lemma occurs_in_spec k s :
  occurs_in k s = true <-> exists p q, s = p ++ k ++ q.
Proof.
  induction s as [| d s IH]; simpl.
  - rewrite orb_false_r, starts_with_spec. split.
    + intros [q H]. exists EmptyString, q. exact H.
    + intros (p & q & H). destruct p as [| c p]; [exists q; exact H |].
      discriminate.
  - rewrite orb_true_iff, IH, starts_with_spec. split.
    + intros [[q H] | (p & q & H)].
      * exists EmptyString, q. exact H.
      * exists (String d p), q. simpl. rewrite H. reflexivity.
    + intros (p & q & H). destruct p as [| c p]; simpl in H.
      * left. exists q. exact H.
      * right. injection H as _ H. exists p, q. exact H.
Qed.

Lemma string_append_assoc (a b c : string) : (a ++ b) ++ c = a ++ b ++ c.
Proof.
  induction a as [| x a IH]; simpl; [reflexivity | rewrite IH; reflexivity].
Qed.

Lemma occurs_in_wrapped k s pre post :
  occurs_in k s = true -> occurs_in k (pre ++ s ++ post) = true.
Proof.
  rewrite !occurs_in_spec. intros (p & q & ->).
  exists (pre ++ p), (q ++ post). rewrite !string_append_assoc. reflexivity.
Qed.

Lemma occurs_in_trans a b s :
  occurs_in a b = true -> occurs_in b s = true -> occurs_in a s = true.
Proof.
  intros Hab. rewrite !occurs_in_spec. intros (p & q & ->).
  apply occurs_in_spec. apply occurs_in_wrapped. exact Hab.
Qed.

Lemma lower_append a b : lower (a ++ b) = lower a ++ lower b.
Proof.
  induction a as [| x a IH]; simpl; [reflexivity | rewrite IH; reflexivity].
Qed.

Lemma any_in_wrapped keywords s pre post :
  any_in keywords s = true -> any_in keywords (pre ++ s ++ post) = true.
Proof.
  unfold any_in. rewrite !existsb_exists. intros (k & Hk & Ho).
  exists k. split; [exact Hk | apply occurs_in_wrapped; exact Ho].
Qed.

Lemma lower_upper_char c : lower_char (upper_char c) = lower_char c.
Proof. destruct c as [[] [] [] [] [] [] [] []]; reflexivity. Qed.

Lemma lower_upper s : lower (upper s) = lower s.
Proof.
  induction s as [| c s IH]; simpl; [reflexivity |].
  rewrite lower_upper_char, IH. reflexivity.
Qed.

(** X19.  For an ASCII command, [run_once] asks for human approval
    ([_assess_risk] is 3 or more) exactly when the command, in lower case,
    contains one of exploit, rm -rf, shutdown, reboot, nmap, scan; the
    keyword masscan adds nothing, it contains scan. *)
Theorem approval_is_asked_exactly_for_these_keywords (c : string) :
  needs_approval (Some c) = true <->
  exists k, In k ["exploit"; "rm -rf"; "shutdown"; "reboot"; "nmap"; "scan"]
            /\ occurs_in k (lower c) = true.
Proof.
  unfold needs_approval, _assess_risk. cbv zeta.
  remember (lower c) as cmd. split.
  - destruct (any_in high_risk_keywords cmd) eqn:Hh.
    + intros _. unfold any_in in Hh. apply existsb_exists in Hh.
      destruct Hh as (k & Hk & Ho). exists k. split; [| exact Ho].
      simpl in Hk. simpl. tauto.
    + destruct (any_in med_risk_keywords cmd) eqn:Hm.
      * intros _. unfold any_in in Hm. apply existsb_exists in Hm.
        destruct Hm as (k & Hk & Ho). simpl in Hk.
        destruct Hk as [<- | [<- | [<- | []]]].
        -- exists "nmap". simpl. tauto.
        -- exists "scan". split; [simpl; tauto |].
           apply occurs_in_trans with (b := "masscan");
             [reflexivity | exact Ho].
        -- exists "scan". simpl. tauto.
      * destruct (any_in low_risk_keywords cmd); simpl; discriminate.
  - intros (k & Hk & Ho).
    destruct (any_in high_risk_keywords cmd) eqn:Hh; [reflexivity |].
    assert (Hm : any_in med_risk_keywords cmd = true).
    { unfold any_in in *. apply existsb_exists.
      assert (Hnot : forall k', In k' high_risk_keywords ->
                                occurs_in k' cmd = false).
      { intros k' Hk'. destruct (occurs_in k' cmd) eqn:E; [| reflexivity].
        assert (existsb (fun k => occurs_in k cmd) high_risk_keywords = true)
          by (apply existsb_exists; exists k'; tauto).
        congruence. }
      simpl in Hk.
      destruct Hk as [<- | [<- | [<- | [<- | [<- | [<- | []]]]]]];
        try (rewrite Hnot in Ho by (simpl; tauto); discriminate).
      - exists "nmap". simpl. tauto.
      - exists "scan". simpl. tauto. }
    rewrite Hm. reflexivity.
Qed.

(** X20.  A command that needs approval keeps needing it, at no lower
    risk, whatever text is put before and after it.  (Below 3 this fails:
    a prefix holding ping takes a risk of 2 down to 1.) *)
Theorem wrapping_a_command_cannot_lower_a_risk_of_3_or_more
    (c pre post : string) :
  needs_approval (Some c) = true ->
  needs_approval (Some (pre ++ c ++ post)) = true /\
  (_assess_risk (Some c) <= _assess_risk (Some (pre ++ c ++ post)))%Z.
Proof.
  unfold needs_approval, _assess_risk. cbv zeta.
  rewrite !lower_append.
  pose proof (any_in_wrapped high_risk_keywords (lower c)
                (lower pre) (lower post)) as Hh.
  pose proof (any_in_wrapped med_risk_keywords (lower c)
                (lower pre) (lower post)) as Hm.
  destruct (any_in high_risk_keywords (lower c)).
  - rewrite Hh by reflexivity. intros _. split; [reflexivity | lia].
  - destruct (any_in med_risk_keywords (lower c)).
    + rewrite Hm by reflexivity. intros _.
      destruct (any_in high_risk_keywords _); split;
        first [reflexivity | lia].
    + destruct (any_in low_risk_keywords (lower c)); discriminate.
Qed.

(** X21.  The risk of an ASCII command does not depend on the case of its
    letters. *)
Theorem the_risk_ignores_letter_case (c : string) :
  _assess_risk (Some (upper c)) = _assess_risk (Some c).
Proof. unfold _assess_risk. rewrite lower_upper. reflexivity. Qed.

Lemma wrapping_a_command_cannot_lower_a_risk_of_3_or_more_witness :
  needs_approval (Some "nmap -sV 10.0.0.5") = true /\
  needs_approval (Some ("ping 10.0.0.5; " ++ "nmap -sV 10.0.0.5" ++ " | tee"))
  = true /\
  (_assess_risk (Some "nmap -sV 10.0.0.5")
   <= _assess_risk
        (Some ("ping 10.0.0.5; " ++ "nmap -sV 10.0.0.5" ++ " | tee")))%Z.
Proof.
  split; [reflexivity |].
  apply (wrapping_a_command_cannot_lower_a_risk_of_3_or_more
           "nmap -sV 10.0.0.5" "ping 10.0.0.5; " " | tee" eq_refl).
Defined.

(** Below 3 the risk can go down: the default of 2 becomes 1 once a
    low-risk keyword is put before the command. *)
Example wrapping_lowers_the_default_risk :
  _assess_risk (Some "ls -la") = 2%Z /\
  _assess_risk (Some ("ping 10.0.0.5; " ++ "ls -la")) = 1%Z.
Proof. split; reflexivity. Qed.

End RiskGate.

(** * Properties of the run context *)

Section RunContext.
Import Ctx.
Context {T : Type}.
Variable isoformat_utc : T -> outcome string.
Variable mktime_iso : string -> option T.
Implicit Types (c : Context T) (s : Surroundings T).

(** [d.update(other)] read back: the binding of [other] where it has one,
    else that of [d]. *)
Lemma get_dict_update (other d : list (string * json)) k :
  NoDup (map fst other) ->
  Dict.get String.eqb (dict_update d other) k
  = match Dict.get String.eqb other k with
    | Some v => Some v
    | None => Dict.get String.eqb d k
    end.
Proof.
  unfold dict_update. revert d.
  induction other as [| [k0 v0] rest IH]; intros d Hnd; simpl;
    [reflexivity |].
  inversion Hnd as [| ? ? Hk0 Hrest]; subst.
  rewrite IH by exact Hrest.
  destruct (String.eqb_spec k0 k) as [-> | Hne].
  - rewrite (dict_get_unbound rest k Hk0). apply dict_get_set_same.
  - destruct (Dict.get String.eqb rest k); [reflexivity |].
    apply dict_get_set_other. congruence.
Qed.

(** X22.  [get] after [update] of the same key returns the value stored,
    whatever the default; every other key reads as before, and [update]
    touches nothing but the metadata. *)
Theorem get_returns_what_update_stored key value other default c :
  get key default (update key value c) = value /\
  (other <> key ->
   get other default (update key value c) = get other default c) /\
  run_id (update key value c) = run_id c /\
  start_time (update key value c) = start_time c /\
  temp_json (update key value c) = temp_json c /\
  logs (update key value c) = logs c.
Proof.
  unfold get, update. simpl. rewrite dict_get_set_same.
  split; [reflexivity |]. split; [| repeat split].
  intros Hne. rewrite dict_get_set_other by exact Hne. reflexivity.
Qed.

(** X23.  When the write completes and the start time can be formatted:
    [save_context] returns, and a [load_context] by any later object on
    the file it wrote returns and takes over the run id, the temporary
    JSON and the logs of the saved object; every metadata key of the saved
    object reads as saved, a key only the loading object had is kept; the
    start time is the saved text with every Z removed, parsed back, and the
    loader's own where that parse fails. *)
Theorem a_saved_context_loads_back s c' iso :
  fates s = [] ->
  isoformat_utc (start_time (ctx s)) = Returns iso ->
  NoDup (map fst (metadata (ctx s))) ->
  let saved := snd (save_context isoformat_utc s) in
  let load := load_context mktime_iso (with_ctx (fun _ => c') saved) in
  fst (save_context isoformat_utc s) = Returns tt /\
  fst load = Returns tt /\
  run_id (ctx (snd load)) = run_id (ctx s) /\
  temp_json (ctx (snd load)) = temp_json (ctx s) /\
  logs (ctx (snd load)) = logs (ctx s) /\
  (forall key default,
     get key default (ctx (snd load))
     = match Dict.get String.eqb (metadata (ctx s)) key with
       | Some v => v
       | None => get key default c'
       end) /\
  start_time (ctx (snd load))
  = match mktime_iso (without_Z (iso ++ "Z")) with
    | Some t => t
    | None => start_time c'
    end.
Proof.
  intros Hfates Hiso Hnd. cbv zeta.
  unfold save_context, write_context_json, load_context.
  rewrite Hiso, Hfates. simpl. repeat split.
  intros key default. unfold get. simpl.
  rewrite get_dict_update by exact Hnd.
  destruct (Dict.get String.eqb (metadata (ctx s)) key); reflexivity.
Qed.

(** X24.  [append_log] appends its entry to the logs of the object before
    it touches the disk: the entry is there whether the log directory could
    be made and whether the file took the line.  The call raises only when
    the directory cannot be made, and then [OSError]; a failed write of the
    line is swallowed.  Run id, metadata, temporary JSON and context.json
    stay as they are. *)
Theorem append_log_records_the_entry_whatever_the_file_does
    dumps now module action status details s :
  let run := append_log dumps now module action status details s in
  let entry := log_entry now module action status details (ctx s) in
  logs (ctx (snd run)) = (logs (ctx s) ++ [entry])%list /\
  fst run = (if logs_dir_creatable s then Returns tt else Raises OSError) /\
  run_id (ctx (snd run)) = run_id (ctx s) /\
  metadata (ctx (snd run)) = metadata (ctx s) /\
  temp_json (ctx (snd run)) = temp_json (ctx s) /\
  context_json (snd run) = context_json s.
Proof.
  cbv zeta. unfold append_log, append_line. simpl.
  destruct (logs_dir_creatable s); simpl; [| repeat split].
  destruct (fates s) as [| [] rest]; simpl;
    try destruct (penzer_log s); repeat split.
Qed.

End RunContext.

Section RunContextScenario.
Import Ctx.

Lemma a_saved_context_loads_back_witness :
  let iso_of := fun _ : Z => Returns "1970-01-01T00:00:00" in
  let mk := fun _ : string => Some 0%Z in
  let saved := snd (save_context iso_of sample) in
  let load := load_context mk (with_ctx (fun _ => later_context) saved) in
  fates sample = [] /\
  iso_of (start_time (ctx sample)) = Returns "1970-01-01T00:00:00" /\
  NoDup (map fst (metadata (ctx sample))) /\
  run_id (ctx (snd load)) = run_id (ctx sample) /\
  get "selected_model" JNull (ctx (snd load)) = JStr "gemini-2.0".
Proof.
  assert (Hnd : NoDup (map fst (metadata (ctx sample)))).
  { simpl. repeat constructor; simpl; intuition discriminate. }
  split; [reflexivity | split; [reflexivity | split; [exact Hnd |]]].
  destruct (a_saved_context_loads_back
              (fun _ : Z => Returns "1970-01-01T00:00:00")
              (fun _ : string => Some 0%Z)
              sample later_context "1970-01-01T00:00:00"
              eq_refl eq_refl Hnd)
    as (_ & _ & Hid & _ & _ & Hget & _).
  split; [exact Hid |]. rewrite Hget. reflexivity.
Defined.

End RunContextScenario.

(** * Properties of the prompt loader *)

Section PromptLoader.
Import Prompts.
Variable entry : string -> outcome (file string).

Lemma first_existing_found name (earlier later : list string) ext :
  (forall e, In e earlier -> entry (name ++ e) = Returns Absent) ->
  first_existing entry name (earlier ++ ext :: later)%list
  = match entry (name ++ ext) with
    | Raises e => Raises e
    | Returns Absent => first_existing entry name later
    | Returns _ => Returns (Some (name ++ ext))
    end.
Proof.
  intros Hearlier. induction earlier as [| e rest IH]; simpl;
    [reflexivity |].
  rewrite (Hearlier e) by (left; reflexivity).
  apply IH. intros e' He'. apply Hearlier. right. exact He'.
Qed.

(** X25.  [load_prompt] settles on the first candidate among name.md,
    name.txt, name.prompt and name that is not missing, and looks at no
    later one.  When that candidate cannot be examined, the exception of
    [exists()] leaves [load_prompt]: the [try] does not cover it.  When it
    holds text, the text is returned; when it is there but cannot be read
    as text, the default (or the empty string) is returned, although a
    later candidate may be a readable file. *)
Theorem load_prompt_reads_the_first_candidate_that_exists
    name default (earlier later : list string) ext :
  extensions = (earlier ++ ext :: later)%list ->
  (forall e, In e earlier -> entry (name ++ e) = Returns Absent) ->
  entry (name ++ ext) <> Returns Absent ->
  load_prompt entry name default
  = match entry (name ++ ext) with
    | Raises e => Raises e
    | Returns (Holds text) => Returns text
    | Returns _ => Returns (or_empty default)
    end.
Proof.
  intros Hext Hearlier Hthere. unfold load_prompt, _prompt_path.
  rewrite Hext, first_existing_found by exact Hearlier.
  destruct (entry (name ++ ext)) as [[| | text] | e] eqn:E;
    [congruence | | | reflexivity]; rewrite E; reflexivity.
Qed.

(** X26.  When each of the four candidates can be examined and is
    missing, [load_prompt] returns the default, and the empty string when
    no default was given. *)
Theorem load_prompt_falls_back_when_no_candidate_exists name default :
  (forall e, In e extensions -> entry (name ++ e) = Returns Absent) ->
  load_prompt entry name default = Returns (or_empty default).
Proof.
  intros Hnone. unfold load_prompt, _prompt_path.
  assert (Hfind : first_existing entry name extensions = Returns None).
  { induction extensions as [| e rest IH]; simpl; [reflexivity |].
    rewrite (Hnone e) by (left; reflexivity).
    apply IH. intros e' He'. apply Hnone. right. exact He'. }
  rewrite Hfind, (Hnone ".md") by (simpl; tauto). reflexivity.
Qed.

End PromptLoader.

Section PromptLoaderScenario.
Import Prompts.

Lemma load_prompt_reads_the_first_candidate_that_exists_witness :
  (extensions = ([] ++ ".md" :: [".txt"; ".prompt"; EmptyString])%list /\
   (forall e, In e [] -> shadowed ("system_prompt" ++ e) = Returns Absent) /\
   shadowed ("system_prompt" ++ ".md") <> Returns Absent /\
   load_prompt shadowed "system_prompt" (Some "fallback")
   = Returns "fallback") /\
  (extensions = ([".md"] ++ ".txt" :: [".prompt"; EmptyString])%list /\
   (forall e, In e [".md"] ->
      empty_directory (name_of_252 ++ e) = Returns Absent) /\
   empty_directory (name_of_252 ++ ".txt") <> Returns Absent /\
   load_prompt empty_directory name_of_252 (Some "fallback")
   = Raises OSError).
Proof.
  assert (H1 : forall e : string,
             In e [] -> shadowed ("system_prompt" ++ e) = Returns Absent)
    by (intros e []).
  assert (H2 : shadowed ("system_prompt" ++ ".md") <> Returns Absent)
    by (simpl; discriminate).
  assert (H3 : forall e : string,
             In e [".md"] ->
             empty_directory (name_of_252 ++ e) = Returns Absent).
  { intros e [<- | []]. vm_compute. reflexivity. }
  assert (H4 : empty_directory (name_of_252 ++ ".txt") <> Returns Absent)
    by (vm_compute; discriminate).
  split.
  - split; [reflexivity | split; [exact H1 | split; [exact H2 |]]].
    rewrite (load_prompt_reads_the_first_candidate_that_exists
               shadowed "system_prompt" (Some "fallback")
               [] [".txt"; ".prompt"; EmptyString] ".md" eq_refl H1 H2).
    reflexivity.
  - split; [reflexivity | split; [exact H3 | split; [exact H4 |]]].
    rewrite (load_prompt_reads_the_first_candidate_that_exists
               empty_directory name_of_252 (Some "fallback")
               [".md"] [".prompt"; EmptyString] ".txt" eq_refl H3 H4).
    vm_compute. reflexivity.
Defined.

Lemma load_prompt_falls_back_when_no_candidate_exists_witness :
  (forall e, In e extensions ->
     shadowed ("planner_prompt" ++ e) = Returns Absent) /\
  load_prompt shadowed "planner_prompt" None = Returns EmptyString.
Proof.
  assert (H : forall e, In e extensions ->
                        shadowed ("planner_prompt" ++ e) = Returns Absent).
  { intros e He. simpl in He.
    destruct He as [<- | [<- | [<- | [<- | []]]]]; reflexivity. }
  split; [exact H |].
  rewrite (load_prompt_falls_back_when_no_candidate_exists
             shadowed "planner_prompt" None H).
  reflexivity.
Defined.

End PromptLoaderScenario.
